(** * yt_spotify_auto_switch: the reconciliation loop, embedded and verified

    A shallow embedding of [yt_spotify_auto_switch.py].  The Python module
    polls the Windows media-session manager, decides whether a browser is
    playing media, and pauses or resumes the Spotify session accordingly.

    Modelling conventions.
    - AUMIDs are Python [str] values that hold ASCII text; they are embedded
      as [string], and [str.lower] as the ASCII lower-casing of every
      character (bytes outside [A-Z] are left alone).  Statements that
      depend on [str.lower] say so with [ascii_only].
    - A call into the platform (a method or attribute of a session, of a
      playback-info object, of the session manager) either returns or raises
      an [Exception]; this is the type [outcome].  The tag of an exception
      names its class, tag 0 being [AttributeError].  Interpreter-level signals
      that are not subclasses of [Exception] (KeyboardInterrupt, task
      cancellation) are not platform results and are not part of the model.
    - Reading code that can raise lives in the error monad [outcome]; code
      that also issues commands, prints or sleeps lives in [M], a state and
      error monad over a [World] holding the clock and the event log.
    - Console output is kept as [Print] events without the timestamp.
    - The bootstrap ([setup_hotkey], [main]) lives in a monad of its own,
      [B], whose computations can also end in [KeyboardInterrupt] or
      [SystemExit]; [main] is given the behaviour of
      [asyncio.run(monitor_loop(stop_event))] as an argument. *)

From Stdlib Require Import String Ascii List ZArith Bool Arith Lia Permutation.
Import ListNotations.
Open Scope string_scope.

(** ** Exceptions and the error monad *)

Inductive exn : Type :=
| Exception (tag : nat).

Inductive outcome (A : Type) : Type :=
| Ok (a : A)
| Raise (e : exn).
Arguments Ok {A} a.
Arguments Raise {A} e.

Module Err.
Definition pure {A} (a : A) : outcome A := Ok a.

Definition seq {A B} (m : outcome A) (k : A -> outcome B) : outcome B :=
  match m with
  | Ok a => k a
  | Raise e => Raise e
  end.

(** [try: body except Exception: handler] *)
Definition attempt {A} (body handler : outcome A) : outcome A :=
  match body with
  | Ok a => Ok a
  | Raise _ => handler
  end.
End Err.

(** The tag of an exception names its class; tag 0 is [AttributeError]. *)
Definition AttributeError : exn := Exception 0.

Definition is_AttributeError (e : exn) : bool :=
  match e with
  | Exception 0 => true
  | Exception (S _) => false
  end.

(** [try: body except AttributeError: handler] *)
Definition attempt_AttributeError {A} (body handler : outcome A) : outcome A :=
  match body with
  | Ok a => Ok a
  | Raise e => if is_AttributeError e then handler else Raise e
  end.

(** ** Strings: [str.lower] and the [in] operator *)

Definition lower_ascii (c : ascii) : ascii :=
  let n := nat_of_ascii c in
  if ((65 <=? n)%nat && (n <=? 90)%nat)%bool then ascii_of_nat (n + 32) else c.

Fixpoint lower (s : string) : string :=
  match s with
  | EmptyString => EmptyString
  | String c rest => String (lower_ascii c) (lower rest)
  end.

(** [k in s] on Python strings: [k] occurs in [s] as a contiguous run. *)
Fixpoint str_in (k s : string) : bool :=
  String.prefix k s ||
  match s with
  | EmptyString => false
  | String _ rest => str_in k rest
  end.

(** [aumid or ""] *)
Definition or_empty (aumid : option string) : string :=
  match aumid with
  | Some a => a
  | None => ""
  end.

(** ** Configuration *)

Definition BROWSER_AUMID_KEYWORDS : list string :=
  [ "chrome"; "msedge"; "edge"; "firefox"; "brave"; "opera"; "vivaldi";
    "msedgewebview"; "webview2" ].

Definition SPOTIFY_AUMID_TOKEN : string := "spotify".

(** [POLL_INTERVAL = 0.5] seconds, kept in milliseconds. *)
Definition POLL_INTERVAL : nat := 500.

Module PlaybackStatus.
Definition CLOSED : Z := 0.
Definition OPENED : Z := 1.
Definition CHANGING : Z := 2.
Definition STOPPED : Z := 3.
Definition PLAYING : Z := 4.
Definition PAUSED : Z := 5.
End PlaybackStatus.

(** ** Helpers *)

Definition is_browser_session (aumid : option string) : bool :=
  let lid := lower (or_empty aumid) in
  existsb (fun k => str_in k lid) BROWSER_AUMID_KEYWORDS.

Definition is_spotify_session (aumid : option string) : bool :=
  str_in SPOTIFY_AUMID_TOKEN (lower (or_empty aumid)).

(** ** Platform objects

    A playback-info object: reading either attribute may raise, and the
    value read may be [None]. *)
Record PlaybackInfo : Type := {
  playback_status : outcome (option Z);
  playback_type : outcome (option Z)
}.

(** A media session as the module sees it.
    - [source_app_user_model_id]: the result of reading the attribute
      [s.source_app_user_model_id]: a string, [None], or an exception
      ([AttributeError] when the attribute is absent).
    - [get_playback_info_call]: the result of [session.get_playback_info()].
    - [playback_info_attr]: the result of
      [getattr(session, "playback_info", None)].
    - [try_pause_async n], [try_play_async n]: the behaviour of the method
      when it is called with [n] events already logged.  [Raise] means the
      call itself raises; [Ok r] means it returns an object and [r] is what
      awaiting that object gives. *)
Record Session : Type := {
  source_app_user_model_id : outcome (option string);
  get_playback_info_call : outcome (option PlaybackInfo);
  playback_info_attr : outcome (option PlaybackInfo);
  try_pause_async : nat -> outcome (outcome bool);
  try_play_async : nat -> outcome (outcome bool)
}.

(** [get_playback_info(session)]: returns [(status, ptype)]. *)
Definition get_playback_info (session : Session)
  : outcome (option Z * option Z) :=
  Err.seq
    (Err.attempt
       (get_playback_info_call session)
       (Err.attempt (playback_info_attr session) (Err.pure None)))
    (fun info =>
       match info with
       | Some info =>
           Err.seq
             (Err.attempt (playback_status info) (Err.pure None))
             (fun status =>
                Err.seq
                  (Err.attempt (playback_type info) (Err.pure None))
                  (fun ptype => Err.pure (status, ptype)))
       | None => Err.pure (None, None)
       end).

(** [getattr(s, "source_app_user_model_id", "")]: the default stands in
    for an absent attribute only; any other exception goes through. *)
Definition getattr_aumid (s : Session) : outcome (option string) :=
  attempt_AttributeError (source_app_user_model_id s)
    (Err.pure (Some ""%string)).

(** [status == PlaybackStatus.PLAYING], where [status] may be [None]. *)
Definition status_eq (status : option Z) (v : Z) : bool :=
  match status with
  | Some z => Z.eqb z v
  | None => false
  end.

Fixpoint pick_spotify_session (sessions : list Session)
  : outcome (option Session) :=
  match sessions with
  | [] => Err.pure None
  | s :: rest =>
      Err.seq (getattr_aumid s)
        (fun aumid =>
           if is_spotify_session aumid then Err.pure (Some s)
           else pick_spotify_session rest)
  end.

Fixpoint any_browser_video_playing (sessions : list Session) : outcome bool :=
  match sessions with
  | [] => Err.pure false
  | s :: rest =>
      Err.seq (getattr_aumid s)
        (fun aumid =>
           if negb (is_browser_session aumid)
           then any_browser_video_playing rest
           else
             Err.seq (get_playback_info s)
               (fun '(status, ptype) =>
                  if status_eq status PlaybackStatus.PLAYING then Err.pure true
                  else any_browser_video_playing rest))
  end.

Definition get_spotify_playing (s : option Session) : outcome (option bool) :=
  match s with
  | None => Err.pure None
  | Some s =>
      Err.seq (get_playback_info s)
        (fun '(status, _) =>
           match status with
           | None => Err.pure None
           | Some z => Err.pure (Some (Z.eqb z PlaybackStatus.PLAYING))
           end)
  end.

(** ** The world: clock and event log

    [Request a s] records entry into [try_spotify_pause] / [try_spotify_play]
    with argument [s] (the action request made of the executor);
    [Invoke a s] records a call of the platform method [s.try_pause_async()]
    / [s.try_play_async()]; [Print l] records a console line. *)

Inductive Action : Type := Pause | Play.

Inductive LogLine : Type :=
| LogStarted
| LogBrowserNow (playing : bool)
| LogPaused
| LogPlayed
| LogStopSignal.

Inductive Event : Type :=
| Request (a : Action) (s : option Session)
| Invoke (a : Action) (s : Session)
| Print (l : LogLine).

(** [now] is the time in milliseconds. *)
Record World : Type := {
  now : nat;
  events : list Event
}.

Definition M (A : Type) : Type := World -> outcome A * World.

Module Eff.
Definition ret {A} (a : A) : M A := fun w => (Ok a, w).

Definition bind {A B} (m : M A) (k : A -> M B) : M B :=
  fun w =>
    match m w with
    | (Ok a, w') => k a w'
    | (Raise e, w') => (Raise e, w')
    end.

(** [try: body except Exception: handler]; what [body] did before raising
    stays done. *)
Definition try_except {A} (body handler : M A) : M A :=
  fun w =>
    match body w with
    | (Ok a, w') => (Ok a, w')
    | (Raise _, w') => handler w'
    end.

Definition lift {A} (r : outcome A) : M A := fun w => (r, w).

Definition emit (e : Event) : M unit :=
  fun w => (Ok tt, {| now := now w; events := events w ++ [e] |}).

Definition print (l : LogLine) : M unit := emit (Print l).

Definition clock : M nat := fun w => (Ok (now w), w).

(** [await asyncio.sleep(d)]: the task resumes [d] milliseconds later. *)
Definition sleep (d : nat) : M unit :=
  fun w => (Ok tt, {| now := now w + d; events := events w |}).
End Eff.

Notation "x <- c1 ;; c2" := (Eff.bind c1 (fun x => c2))
  (at level 61, c1 at next level, right associativity).
Notation "c1 ;;; c2" := (Eff.bind c1 (fun _ => c2))
  (at level 61, right associativity).

Definition method_of (a : Action) (s : Session) : nat -> outcome (outcome bool) :=
  match a with
  | Pause => try_pause_async s
  | Play => try_play_async s
  end.

(** The call [s.try_pause_async()] (or [s.try_play_async()]): logged, and
    either raises or returns an object to await. *)
Definition call_method (a : Action) (s : Session) : M (outcome bool) :=
  fun w =>
    (method_of a s (length (events w)),
     {| now := now w; events := events w ++ [Invoke a s] |}).

(** [await op] *)
Definition await (op : outcome bool) : M bool := Eff.lift op.

(** ** The action executor

    [try_spotify_pause] and [try_spotify_play] are the same code up to the
    method they call; [try_spotify a] is that code for the method of [a]. *)

Definition try_spotify (a : Action) (s : option Session) : M bool :=
  Eff.emit (Request a s) ;;;
  match s with
  | None => Eff.ret false
  | Some s =>
      Eff.try_except
        (op <- call_method a s ;; await op ;;; Eff.ret true)
        (Eff.try_except
           (call_method a s ;;; Eff.ret true)
           (Eff.ret false))
  end.

Definition try_spotify_pause (s : option Session) : M bool :=
  try_spotify Pause s.

Definition try_spotify_play (s : option Session) : M bool :=
  try_spotify Play s.

(** ** The monitor loop *)

(** The session manager: [get_sessions t] is the result of
    [mgr.get_sessions()] when called at time [t]. *)
Record Mgr : Type := {
  get_sessions : nat -> outcome (list Session)
}.

(** A [threading.Event]: [is_set t] is the value of [is_set()] at time [t]. *)
Record ThreadingEvent : Type := {
  is_set : nat -> bool
}.

Definition list_sessions (mgr : Mgr) : M (list Session) :=
  Eff.try_except
    (t <- Eff.clock ;; Eff.lift (get_sessions mgr t))
    (Eff.ret []).

(** The two locals carried from one cycle to the next. *)
Record LoopState : Type := {
  last_browser_playing : option bool;
  last_spotify_playing : option bool
}.

Definition initial_state : LoopState :=
  {| last_browser_playing := None; last_spotify_playing := None |}.

(** [last_browser_playing is None or browser_playing != last_browser_playing] *)
Definition browser_changed (last : option bool) (browser_playing : bool) : bool :=
  match last with
  | None => true
  | Some b => negb (Bool.eqb browser_playing b)
  end.

(** [x is not False], [x is not True], [x is False] and the truth value of
    [x], for [x : Optional[bool]]. *)
Definition is_not_False (x : option bool) : bool :=
  match x with Some false => false | _ => true end.
Definition is_not_True (x : option bool) : bool :=
  match x with Some true => false | _ => true end.
Definition is_False (x : option bool) : bool :=
  match x with Some false => true | _ => false end.
Definition truthy (x : option bool) : bool :=
  match x with Some true => true | _ => false end.

(** Lines 183-185 of [monitor_loop]: the classification of a snapshot,
    [(browser_playing, spotify_session, spotify_playing)]. *)
Definition classify (sessions : list Session)
  : outcome (bool * option Session * option bool) :=
  Err.seq (any_browser_video_playing sessions) (fun browser_playing =>
  Err.seq (pick_spotify_session sessions) (fun spotify_session =>
  Err.seq (get_spotify_playing spotify_session) (fun spotify_playing =>
  Err.pure (browser_playing, spotify_session, spotify_playing)))).

(** Lines 187-202: the block run on a change of the browser state. *)
Definition on_change (st : LoopState) (browser_playing : bool)
    (spotify_session : option Session) (spotify_playing : option bool)
  : M unit :=
  if browser_changed (last_browser_playing st) browser_playing then
    Eff.print (LogBrowserNow browser_playing) ;;;
    if browser_playing then
      if is_not_False spotify_playing then
        ok <- try_spotify_pause spotify_session ;;
        if ok then Eff.print LogPaused else Eff.ret tt
      else Eff.ret tt
    else
      if is_not_True spotify_playing then
        ok <- try_spotify_play spotify_session ;;
        if ok then Eff.print LogPlayed else Eff.ret tt
      else Eff.ret tt
  else Eff.ret tt.

(** Lines 204-211: the block run in every cycle. *)
Definition reconcile_gently (browser_playing : bool)
    (spotify_session : option Session) (spotify_playing : option bool)
  : M unit :=
  if browser_playing && truthy spotify_playing then
    try_spotify_pause spotify_session ;;; Eff.ret tt
  else if negb browser_playing && is_False spotify_playing then
    try_spotify_play spotify_session ;;; Eff.ret tt
  else Eff.ret tt.

(** Lines 183-214: one cycle on the snapshot [sessions]. *)
Definition reconcile (st : LoopState) (sessions : list Session) : M LoopState :=
  c <- Eff.lift (classify sessions) ;;
  let '(browser_playing, spotify_session, spotify_playing) := c in
  on_change st browser_playing spotify_session spotify_playing ;;;
  reconcile_gently browser_playing spotify_session spotify_playing ;;;
  Eff.ret {| last_browser_playing := Some browser_playing;
             last_spotify_playing := spotify_playing |}.

(** Lines 182-216: the body of the [while] loop. *)
Definition loop_body (mgr : Mgr) (st : LoopState) : M LoopState :=
  sessions <- list_sessions mgr ;;
  st' <- reconcile st sessions ;;
  Eff.sleep POLL_INTERVAL ;;;
  Eff.ret st'.

(** [while not stop_event.is_set(): ...], unrolled at most [fuel] times;
    [None] when the fuel runs out before the loop exits. *)
Fixpoint monitor_while (fuel : nat) (stop_event : ThreadingEvent) (mgr : Mgr)
    (st : LoopState) : M (option LoopState) :=
  match fuel with
  | O => Eff.ret None
  | S fuel' =>
      t <- Eff.clock ;;
      if is_set stop_event t then Eff.ret (Some st)
      else
        st' <- loop_body mgr st ;;
        monitor_while fuel' stop_event mgr st'
  end.

(** [monitor_loop(stop_event)]; [request_manager] is the result of
    [await request_manager()]. *)
Definition monitor_loop (fuel : nat) (request_manager : outcome Mgr)
    (stop_event : ThreadingEvent) : M (option unit) :=
  mgr <- Eff.lift request_manager ;;
  Eff.print LogStarted ;;;
  r <- monitor_while fuel stop_event mgr initial_state ;;
  match r with
  | Some _ => Eff.print LogStopSignal ;;; Eff.ret (Some tt)
  | None => Eff.ret None
  end.

Definition start_world : World := {| now := 0; events := [] |}.

(** * Specification-side notions *)

(** Case-insensitive containment, in the words of the specification: some
    contiguous part of [identity] equals [token] up to letter case. *)
Definition ci_contains (identity token : string) : Prop :=
  exists pre mid post,
    identity = pre ++ mid ++ post /\ lower mid = lower token.

(** The identity of a session can be read: reading its AUMID raises
    nothing but, at most, [AttributeError]. *)
Definition aumid_readable (s : Session) : Prop :=
  forall e, source_app_user_model_id s = Raise e -> is_AttributeError e = true.

(** The identity of a session whose identity can be read: its AUMID, empty
    when absent or [None]. *)
Definition identity (s : Session) : string :=
  match source_app_user_model_id s with
  | Ok aumid => or_empty aumid
  | Raise _ => ""
  end.

(** A string of ASCII characters, on which [lower] is [str.lower]. *)
Definition ascii_only (s : string) : Prop :=
  Forall (fun c => nat_of_ascii c < 128) (list_ascii_of_string s).

(** The platform offers the status [v] for [s]: the info object, the one
    that [s.get_playback_info()] returns or, when that call raises, the
    one held by the attribute [s.playback_info], has a [playback_status]
    that reads as [v]. *)
Definition status_reads (s : Session) (v : Z) : Prop :=
  exists i,
    (get_playback_info_call s = Ok (Some i) \/
     exists e, get_playback_info_call s = Raise e /\
               playback_info_attr s = Ok (Some i)) /\
    playback_status i = Ok (Some v).

Definition video_source (s : Session) : Prop :=
  exists k, In k BROWSER_AUMID_KEYWORDS /\ ci_contains (identity s) k.

Definition music_player (s : Session) : Prop :=
  ci_contains (identity s) SPOTIFY_AUMID_TOKEN.

(** The status of [s] reads as [v]; the status of [s] is unreadable. *)
Definition status_is (s : Session) (v : Z) : Prop :=
  exists ptype, get_playback_info s = Ok (Some v, ptype).

Definition status_unreadable (s : Session) : Prop :=
  exists ptype, get_playback_info s = Ok (None, ptype).

(** The ways in which the reads made by [get_playback_info] can fail to
    produce a status, on the raw behaviour of the session object. *)
Inductive status_read_fails (s : Session) : Prop :=
| call_gives_none :
    get_playback_info_call s = Ok None -> status_read_fails s
| call_raises_attr_none e :
    get_playback_info_call s = Raise e ->
    playback_info_attr s = Ok None -> status_read_fails s
| call_raises_attr_raises e e' :
    get_playback_info_call s = Raise e ->
    playback_info_attr s = Raise e' -> status_read_fails s
| call_status_raises i e :
    get_playback_info_call s = Ok (Some i) ->
    playback_status i = Raise e -> status_read_fails s
| call_status_none i :
    get_playback_info_call s = Ok (Some i) ->
    playback_status i = Ok None -> status_read_fails s
| attr_status_raises e i e' :
    get_playback_info_call s = Raise e ->
    playback_info_attr s = Ok (Some i) ->
    playback_status i = Raise e' -> status_read_fails s
| attr_status_none e i :
    get_playback_info_call s = Raise e ->
    playback_info_attr s = Ok (Some i) ->
    playback_status i = Ok None -> status_read_fails s.

(** The world [w] with [evs] appended to its log. *)
Definition extend (w : World) (evs : list Event) : World :=
  {| now := now w; events := events w ++ evs |}.

(** The action requests and the platform calls found in a piece of log. *)
Definition requests_of (evs : list Event) : list Action :=
  flat_map (fun e => match e with Request a _ => [a] | _ => [] end) evs.

Definition invokes_of (evs : list Event) : list Action :=
  flat_map (fun e => match e with Invoke a _ => [a] | _ => [] end) evs.

(** The requests made by the block run on a change (lines 187-202) and by
    the block run in every cycle (lines 204-211). *)
Definition edge_requests (last : option bool) (browser_playing : bool)
    (spotify_playing : option bool) : list Action :=
  if browser_changed last browser_playing then
    if browser_playing then
      if is_not_False spotify_playing then [Pause] else []
    else
      if is_not_True spotify_playing then [Play] else []
  else [].

Definition level_requests (browser_playing : bool)
    (spotify_playing : option bool) : list Action :=
  if browser_playing && truthy spotify_playing then [Pause]
  else if negb browser_playing && is_False spotify_playing then [Play]
  else [].

(** The signal that becomes set at time [t0] and stays set. *)
Definition set_at (t0 : nat) : ThreadingEvent :=
  {| is_set := fun t => (t0 <=? t)%nat |}.

(** * Sample platform objects *)

Definition readable_info (status : Z) : PlaybackInfo :=
  {| playback_status := Ok (Some status); playback_type := Ok None |}.

(** A session whose reads and commands all succeed. *)
Definition responsive (aumid : string) (status : Z) : Session :=
  {| source_app_user_model_id := Ok (Some aumid);
     get_playback_info_call := Ok (Some (readable_info status));
     playback_info_attr := Ok (Some (readable_info status));
     try_pause_async := fun _ => Ok (Ok true);
     try_play_async := fun _ => Ok (Ok true) |}.

(** A session whose playback info cannot be read at all. *)
Definition unreadable (aumid : string) : Session :=
  {| source_app_user_model_id := Ok (Some aumid);
     get_playback_info_call := Raise (Exception 0);
     playback_info_attr := Raise (Exception 1);
     try_pause_async := fun _ => Ok (Ok true);
     try_play_async := fun _ => Ok (Ok true) |}.

(** A session whose status reads fine and whose commands always raise. *)
Definition unresponsive (aumid : string) (status : Z) : Session :=
  {| source_app_user_model_id := Ok (Some aumid);
     get_playback_info_call := Ok (Some (readable_info status));
     playback_info_attr := Ok (Some (readable_info status));
     try_pause_async := fun _ => Raise (Exception 2);
     try_play_async := fun _ => Raise (Exception 2) |}.

(** A session that has gone away: every read of it raises an [OSError]
    (tag 9), its commands too. *)
Definition closed_session : Session :=
  {| source_app_user_model_id := Raise (Exception 9);
     get_playback_info_call := Raise (Exception 9);
     playback_info_attr := Raise (Exception 9);
     try_pause_async := fun _ => Raise (Exception 9);
     try_play_async := fun _ => Raise (Exception 9) |}.

(** The snapshot that a cycle starting in [w] works on. *)
Definition snapshot (mgr : Mgr) (w : World) : list Session :=
  match get_sessions mgr (now w) with
  | Ok sessions => sessions
  | Raise _ => []
  end.

(** Every session that [mgr] ever reports has an identity that can be
    read. *)
Definition well_read (mgr : Mgr) : Prop :=
  forall t sessions,
    get_sessions mgr t = Ok sessions -> Forall aumid_readable sessions.

(** A manager that reports no session, and one whose enumeration fails. *)
Definition quiet_mgr : Mgr := {| get_sessions := fun _ => Ok [] |}.
Definition failing_mgr : Mgr := {| get_sessions := fun _ => Raise (Exception 3) |}.

(** A session whose [get_playback_info()] returns [None] and whose
    [playback_info] attribute is [attr]. *)
Definition answers_none (aumid : string)
    (attr : outcome (option PlaybackInfo)) : Session :=
  {| source_app_user_model_id := Ok (Some aumid);
     get_playback_info_call := Ok None;
     playback_info_attr := attr;
     try_pause_async := fun _ => Ok (Ok true);
     try_play_async := fun _ => Ok (Ok true) |}.

(** The event [e] concerns the session [target] and no other: a request
    was made with [target], a platform method was called on [target]. *)
Definition aimed_at (target : option Session) (e : Event) : Prop :=
  match e with
  | Request _ s => s = target
  | Invoke _ x => target = Some x
  | Print _ => True
  end.

(** The events a cycle can leave: anything but the two lines that
    [monitor_loop] prints outside its loop. *)
Definition cycle_event (e : Event) : Prop :=
  match e with
  | Print LogStarted => False
  | Print LogStopSignal => False
  | _ => True
  end.

(** The console lines found in a piece of log. *)
Definition prints_of (evs : list Event) : list LogLine :=
  flat_map (fun e => match e with Print l => [l] | _ => [] end) evs.

(** A session whose commands raise when awaited, and keep raising. *)
Definition not_awaitable (aumid : string) (status : Z) : Session :=
  {| source_app_user_model_id := Ok (Some aumid);
     get_playback_info_call := Ok (Some (readable_info status));
     playback_info_attr := Ok (Some (readable_info status));
     try_pause_async := fun _ => Ok (Raise (Exception 4));
     try_play_async := fun _ => Ok (Raise (Exception 4)) |}.

(** A session whose commands return and report failure when awaited. *)
Definition refusing (aumid : string) (status : Z) : Session :=
  {| source_app_user_model_id := Ok (Some aumid);
     get_playback_info_call := Ok (Some (readable_info status));
     playback_info_attr := Ok (Some (readable_info status));
     try_pause_async := fun _ => Ok (Ok false);
     try_play_async := fun _ => Ok (Ok false) |}.

(** * The remaining helpers and the bootstrap *)

(** ** [get_media_title] *)

(** A media-properties object: [title] is what
    [getattr(props, "title", None)] gives. *)
Record MediaProperties : Type := {
  title : outcome (option string)
}.

(** The part of a session that [get_media_title] uses.  Each method
    raises, returns [None], or returns an object; [Some r] is such an
    object, [r] being what awaiting it gives. *)
Record TitledSession : Type := {
  try_get_media_properties_async : outcome (option (outcome MediaProperties));
  get_media_properties_async : outcome (option (outcome MediaProperties))
}.

Definition get_media_title (session : TitledSession) : outcome (option string) :=
  Err.seq
    (attempt_AttributeError
       (try_get_media_properties_async session)
       (Err.attempt (get_media_properties_async session) (Err.pure None)))
    (fun props_op =>
       match props_op with
       | None => Err.pure None
       | Some op =>
           Err.attempt
             (Err.seq op (fun props => title props))
             (Err.pure None)
       end).

(** ** [setup_hotkey] and [main]

    What can leave [main] is an [Exception], or one of the two signals
    [KeyboardInterrupt] and [SystemExit]. *)
Definition STOP_HOTKEY : string := "ctrl+alt+x".

Inductive raised : Type :=
| RaisedException (e : exn)
| KeyboardInterrupt
| SystemExit (code : Z).

Inductive completion (A : Type) : Type :=
| Returns (a : A)
| Raises (r : raised).
Arguments Returns {A} a.
Arguments Raises {A} r.

Inductive BootLine : Type :=
| LineNotWindows
| LineNoKeyboard
| LineHotkeyRegistered
| LineHotkeyFailed
| LineKeyboardInterrupt.

Inductive BootEvent : Type :=
| BootPrint (l : BootLine)
| AddHotkey (hotkey : string)
| RemoveHotkey (handle : nat)
| UnhookAllHotkeys.

(** The [keyboard] module: [add_hotkey] is the result of
    [keyboard.add_hotkey(STOP_HOTKEY, ...)], a handle, [None], or an
    exception. *)
Record Keyboard : Type := {
  add_hotkey : outcome (option nat);
  remove_hotkey : nat -> outcome unit;
  unhook_all_hotkeys : outcome unit
}.

Definition B (A : Type) : Type := list BootEvent -> completion A * list BootEvent.

Module Boot.
Definition done {A} (a : A) : B A := fun l => (Returns a, l).

Definition next {A C} (m : B A) (k : A -> B C) : B C :=
  fun l =>
    match m l with
    | (Returns a, l') => k a l'
    | (Raises r, l') => (Raises r, l')
    end.

Definition throw {A} (r : raised) : B A := fun l => (Raises r, l).

Definition say (line : BootLine) : B unit :=
  fun l => (Returns tt, (l ++ [BootPrint line])%list).

(** A call into the [keyboard] module: logged, then returns or raises. *)
Definition call {A} (e : BootEvent) (r : outcome A) : B A :=
  fun l =>
    (match r with
     | Ok a => Returns a
     | Raise x => Raises (RaisedException x)
     end, (l ++ [e])%list).

(** [try: body except Exception: handler] *)
Definition catch_Exception {A} (body handler : B A) : B A :=
  fun l =>
    match body l with
    | (Raises (RaisedException _), l') => handler l'
    | other => other
    end.

(** [try: body except KeyboardInterrupt: handler] *)
Definition catch_KeyboardInterrupt {A} (body handler : B A) : B A :=
  fun l =>
    match body l with
    | (Raises KeyboardInterrupt, l') => handler l'
    | other => other
    end.

(** [try: body finally: cleanup] *)
Definition finally {A} (body : B A) (cleanup : B unit) : B A :=
  fun l =>
    match body l with
    | (r, l') =>
        match cleanup l' with
        | (Returns _, l'') => (r, l'')
        | (Raises x, l'') => (Raises x, l'')
        end
    end.
End Boot.

(** [setup_hotkey(stop_event)], with [keyboard] the module global, [None]
    when the import failed.  The callback handed to [add_hotkey] is not
    run here. *)
Definition setup_hotkey (keyboard : option Keyboard) : B (option nat) :=
  match keyboard with
  | None => Boot.next (Boot.say LineNoKeyboard) (fun _ => Boot.done None)
  | Some kb =>
      Boot.catch_Exception
        (Boot.next (Boot.call (AddHotkey STOP_HOTKEY) (add_hotkey kb))
           (fun handler =>
              Boot.next (Boot.say LineHotkeyRegistered)
                (fun _ => Boot.done handler)))
        (Boot.next (Boot.say LineHotkeyFailed) (fun _ => Boot.done None))
  end.

(** The [finally] block of [main], lines 246-252. *)
Definition remove_hotkeys (keyboard : option Keyboard)
    (hotkey_handle : option nat) : B unit :=
  Boot.catch_Exception
    (match keyboard with
     | Some kb =>
         Boot.next
           (match hotkey_handle with
            | Some h => Boot.call (RemoveHotkey h) (remove_hotkey kb h)
            | None => Boot.done tt
            end)
           (fun _ => Boot.call UnhookAllHotkeys (unhook_all_hotkeys kb))
     | None => Boot.done tt
     end)
    (Boot.done tt).

(** [main()]: [platform] is [sys.platform]; [asyncio_run] is the behaviour
    of [asyncio.run(monitor_loop(stop_event))], which returns, raises what
    [monitor_loop] raised, or raises [KeyboardInterrupt]. *)
Definition main (platform : string) (keyboard : option Keyboard)
    (asyncio_run : B unit) : B unit :=
  if negb (String.eqb platform "win32") then
    Boot.next (Boot.say LineNotWindows) (fun _ => Boot.throw (SystemExit 1))
  else
    Boot.next (setup_hotkey keyboard) (fun hotkey_handle =>
    Boot.finally
      (Boot.catch_KeyboardInterrupt asyncio_run
         (Boot.say LineKeyboardInterrupt))
      (remove_hotkeys keyboard hotkey_handle)).

(** The handle [setup_hotkey] ends up with. *)
Definition registered (keyboard : option Keyboard) : option nat :=
  match keyboard with
  | Some kb =>
      match add_hotkey kb with
      | Ok handler => handler
      | Raise _ => None
      end
  | None => None
  end.

(** How [main] ends when [asyncio.run] ended as [r]. *)
Definition main_ends (r : completion unit) : completion unit :=
  match r with
  | Raises KeyboardInterrupt => Returns tt
  | other => other
  end.

(** Sample objects for the bootstrap. *)
Definition working_keyboard : Keyboard :=
  {| add_hotkey := Ok (Some 7);
     remove_hotkey := fun _ => Ok tt;
     unhook_all_hotkeys := Ok tt |}.

Definition interrupted_run : B unit := Boot.throw KeyboardInterrupt.

Definition titled (t : string) : TitledSession :=
  {| try_get_media_properties_async := Raise AttributeError;
     get_media_properties_async := Ok (Some (Ok {| title := Ok (Some t) |})) |}.

(** What [setup_hotkey] logs, and what the [finally] block of [main] logs
    when [setup_hotkey] ended with [registered keyboard]. *)
Definition setup_events (keyboard : option Keyboard) : list BootEvent :=
  match keyboard with
  | None => [BootPrint LineNoKeyboard]
  | Some kb =>
      match add_hotkey kb with
      | Ok _ => [AddHotkey STOP_HOTKEY; BootPrint LineHotkeyRegistered]
      | Raise _ => [AddHotkey STOP_HOTKEY; BootPrint LineHotkeyFailed]
      end
  end.

Definition cleanup_events (keyboard : option Keyboard) : list BootEvent :=
  match keyboard with
  | None => []
  | Some kb =>
      match registered keyboard with
      | Some h =>
          RemoveHotkey h ::
          match remove_hotkey kb h with
          | Ok _ => [UnhookAllHotkeys]
          | Raise _ => []
          end
      | None => [UnhookAllHotkeys]
      end
  end.

(** The handles passed to [keyboard.remove_hotkey] in a piece of log. *)
Definition removed_handles (evs : list BootEvent) : list nat :=
  flat_map (fun e => match e with RemoveHotkey h => [h] | _ => [] end) evs.

(** The line printed when [asyncio.run] ended as [r]. *)
Definition interrupt_line (r : completion unit) : list BootEvent :=
  match r with
  | Raises KeyboardInterrupt => [BootPrint LineKeyboardInterrupt]
  | _ => []
  end.

(** A keyboard module whose [remove_hotkey] raises. *)
Definition stuck_keyboard : Keyboard :=
  {| add_hotkey := Ok (Some 7);
     remove_hotkey := fun _ => Raise (Exception 5);
     unhook_all_hotkeys := Ok tt |}.

(** * Strings *)

Section Strings.

Lemma prefix_iff (k s : string) :
  String.prefix k s = true <-> exists post, s = k ++ post.
Proof.
  revert s; induction k as [|c k IH]; intros s.
  - destruct s; simpl; split; eauto.
  - destruct s as [|d s]; simpl.
    + split; [discriminate | intros [post H]; discriminate].
    + destruct (ascii_dec c d) as [->|Hne].
      * rewrite IH. split.
        -- intros [post ->]. now exists post.
        -- intros [post H]. injection H as ->. now exists post.
      * split; [discriminate|].
        intros [post H]. injection H as H _. congruence.
Qed.

Lemma str_in_iff (k s : string) :
  str_in k s = true <-> exists pre post, s = pre ++ k ++ post.
Proof.
  induction s as [|c s IH].
  - change (str_in k "") with (String.prefix k "" || false).
    rewrite orb_false_r, prefix_iff. split.
    + intros [post H]. now exists "", post.
    + intros [pre [post H]]. destruct pre; simpl in H; [eauto | discriminate].
  - change (str_in k (String c s))
      with (String.prefix k (String c s) || str_in k s).
    rewrite orb_true_iff, prefix_iff, IH. split.
    + intros [[post H] | [pre [post H]]].
      * now exists "", post.
      * exists (String c pre), post. simpl. now rewrite H.
    + intros [pre [post H]]. destruct pre as [|d pre]; simpl in H.
      * left. now exists post.
      * right. injection H as _ ->. now exists pre, post.
Qed.

Lemma lower_app (a b : string) : lower (a ++ b) = lower a ++ lower b.
Proof.
  induction a as [|x a IH]; simpl; [reflexivity | now rewrite IH].
Qed.

Lemma lower_split (s x y : string) :
  lower s = x ++ y ->
  exists a b, s = a ++ b /\ lower a = x /\ lower b = y.
Proof.
  revert s; induction x as [|c x IH]; intros s H.
  - exists "", s. auto.
  - destruct s as [|d s]; simpl in H; [discriminate|].
    injection H as Hc Hs.
    destruct (IH _ Hs) as (a & b & -> & Ha & Hb).
    exists (String d a), b. simpl. repeat split; [now rewrite Hc, Ha | exact Hb].
Qed.

(** The test the code performs, [k in identity.lower()], is case-insensitive
    containment whenever the token is written in lower case. *)
Lemma str_in_lower_iff (k id : string) :
  lower k = k ->
  str_in k (lower id) = true <-> ci_contains id k.
Proof.
  intros Hk. rewrite str_in_iff. split.
  - intros (pre & post & H).
    destruct (lower_split _ _ _ H) as (a & bc & -> & Ha & Hbc).
    destruct (lower_split _ _ _ Hbc) as (b & c & -> & Hb & Hc).
    exists a, b, c. split; [reflexivity | congruence].
  - intros (pre & mid & post & -> & Hmid).
    exists (lower pre), (lower post).
    rewrite !lower_app. congruence.
Qed.

Lemma keywords_lower :
  Forall (fun k => lower k = k) BROWSER_AUMID_KEYWORDS.
Proof.
  repeat constructor.
Qed.

Lemma is_browser_session_iff (aumid : option string) :
  is_browser_session aumid = true <->
  exists k, In k BROWSER_AUMID_KEYWORDS /\ ci_contains (or_empty aumid) k.
Proof.
  unfold is_browser_session. rewrite existsb_exists.
  pose proof keywords_lower as HL. rewrite Forall_forall in HL.
  split; intros (k & Hin & H); exists k; split; auto;
    now apply (str_in_lower_iff k _ (HL k Hin)).
Qed.

Lemma is_spotify_session_iff (aumid : option string) :
  is_spotify_session aumid = true <->
  ci_contains (or_empty aumid) SPOTIFY_AUMID_TOKEN.
Proof.
  unfold is_spotify_session. now apply str_in_lower_iff.
Qed.

End Strings.

(** * The classifier *)

Open Scope list_scope.

Section Classifier.

Ltac destruct_reads s :=
  unfold get_playback_info;
  destruct (get_playback_info_call s) as [[i|]|?];
  [ | | destruct (playback_info_attr s) as [[i|]|?] ];
  simpl;
  try (destruct (playback_status i) as [[z|]|?];
       destruct (playback_type i) as [[t|]|?]; simpl).

Lemma get_playback_info_total (s : Session) :
  exists status ptype, get_playback_info s = Ok (status, ptype).
Proof.
  destruct_reads s; eauto.
Qed.

Lemma status_read_fails_iff (s : Session) :
  status_read_fails s <-> status_unreadable s.
Proof.
  unfold status_unreadable. split.
  - intros H. unfold get_playback_info.
    destruct H as [H1|e H1 H2|e e' H1 H2|i e H1 H2|i H1 H2|e i e' H1 H2 H3
                  |e i H1 H2 H3];
      rewrite H1; simpl; try rewrite H2; simpl; try rewrite H3; simpl;
      try (destruct (playback_type i) as [[t|]|?]; simpl); eauto.
  - intros [pt H]. revert H. unfold get_playback_info.
    destruct (get_playback_info_call s) as [[i|]|e] eqn:Hc; simpl.
    + destruct (playback_status i) as [[z|]|e] eqn:Hs;
        destruct (playback_type i) as [[t|]|?]; simpl; try discriminate;
        intros _; eauto using status_read_fails.
    + intros _. now apply call_gives_none.
    + destruct (playback_info_attr s) as [[i|]|e'] eqn:Ha; simpl.
      * destruct (playback_status i) as [[z|]|e''] eqn:Hs;
          destruct (playback_type i) as [[t|]|?]; simpl; try discriminate;
          intros _; eauto using status_read_fails.
      * intros _. eauto using status_read_fails.
      * intros _. eauto using status_read_fails.
Qed.

Lemma status_is_iff_status_reads (s : Session) (v : Z) :
  status_is s v <-> status_reads s v.
Proof.
  unfold status_is, status_reads, get_playback_info. split.
  - intros (pt & H). revert H.
    destruct (get_playback_info_call s) as [[i|]|e]; simpl.
    + intros H. exists i. split; [now left|]. revert H.
      destruct (playback_status i) as [[z|]|?];
        destruct (playback_type i) as [[t|]|?]; simpl; unfold Err.pure;
        congruence.
    + discriminate.
    + destruct (playback_info_attr s) as [[i|]|e']; simpl;
        try discriminate.
      intros H. exists i. split; [right; eauto|]. revert H.
      destruct (playback_status i) as [[z|]|?];
        destruct (playback_type i) as [[t|]|?]; simpl; unfold Err.pure;
        congruence.
  - intros (i & [Hc | (e & Hc & Ha)] & Hs); rewrite Hc; simpl;
      try rewrite Ha; simpl; rewrite Hs; simpl;
      destruct (playback_type i) as [[t|]|?]; simpl; eauto.
Qed.

(** Reading the AUMID of a session whose identity can be read gives its
    identity; reading one that raises something else raises it. *)
Lemma getattr_aumid_readable (s : Session) :
  aumid_readable s ->
  exists aumid, getattr_aumid s = Ok aumid /\ or_empty aumid = identity s.
Proof.
  unfold aumid_readable, getattr_aumid, attempt_AttributeError, identity.
  intros H. destruct (source_app_user_model_id s) as [a|e].
  - exists a. auto.
  - rewrite (H e eq_refl). exists (Some ""%string). auto.
Qed.

Lemma getattr_aumid_raises (s : Session) (e : exn) :
  source_app_user_model_id s = Raise e ->
  is_AttributeError e = false ->
  getattr_aumid s = Raise e.
Proof.
  unfold getattr_aumid, attempt_AttributeError. intros -> ->. reflexivity.
Qed.

Lemma getattr_aumid_ok_readable (s : Session) (aumid : option string) :
  getattr_aumid s = Ok aumid -> aumid_readable s.
Proof.
  unfold getattr_aumid, attempt_AttributeError, aumid_readable.
  destruct (source_app_user_model_id s) as [a|e]; [discriminate|].
  intros H e' He'. injection He' as <-.
  destruct (is_AttributeError e); [reflexivity | discriminate].
Qed.

Lemma is_browser_session_or_empty (aumid : option string) :
  is_browser_session aumid = is_browser_session (Some (or_empty aumid)).
Proof. reflexivity. Qed.

Lemma is_spotify_session_or_empty (aumid : option string) :
  is_spotify_session aumid = is_spotify_session (Some (or_empty aumid)).
Proof. reflexivity. Qed.

Lemma any_browser_video_playing_total (sessions : list Session) :
  Forall aumid_readable sessions ->
  exists b, any_browser_video_playing sessions = Ok b.
Proof.
  induction 1 as [|s rest Hs _ IH]; simpl; [now exists false|].
  destruct (getattr_aumid_readable s Hs) as (a & -> & _). simpl.
  destruct (is_browser_session a); simpl; [|exact IH].
  destruct (get_playback_info_total s) as (st & pt & ->). simpl.
  destruct (status_eq st _); [now exists true | exact IH].
Qed.

Lemma status_eq_true_iff (status : option Z) (v : Z) :
  status_eq status v = true <-> status = Some v.
Proof.
  destruct status as [z|]; simpl.
  - rewrite Z.eqb_eq. split; congruence.
  - split; discriminate.
Qed.

Lemma any_browser_video_playing_true_iff (sessions : list Session) :
  Forall aumid_readable sessions ->
  any_browser_video_playing sessions = Ok true <->
  exists s, In s sessions /\
            is_browser_session (Some (identity s)) = true /\
            status_is s PlaybackStatus.PLAYING.
Proof.
  induction 1 as [|s rest Hs _ IH]; simpl.
  - split; [discriminate | intros (s & [] & _)].
  - destruct (getattr_aumid_readable s Hs) as (a & -> & Hid). simpl.
    rewrite (is_browser_session_or_empty a), Hid.
    destruct (is_browser_session (Some (identity s))) eqn:Hb; simpl.
    + destruct (get_playback_info_total s) as (st & pt & Hinfo).
      rewrite Hinfo. simpl.
      destruct (status_eq st PlaybackStatus.PLAYING) eqn:Hst.
      * split; [intros _ | reflexivity].
        apply status_eq_true_iff in Hst. subst st.
        exists s. repeat split; auto. now exists pt.
      * rewrite IH. split.
        -- intros (x & Hin & Hx). exists x. auto.
        -- intros (x & [->|Hin] & Hbx & (pt' & Hx));
             [|exists x; split; auto; split; auto; now exists pt'].
           rewrite Hinfo in Hx. injection Hx as -> _.
           rewrite (proj2 (status_eq_true_iff _ _) eq_refl) in Hst.
           discriminate.
    + rewrite IH. split.
      * intros (x & Hin & Hx). exists x. auto.
      * intros (x & [->|Hin] & Hbx & Hx); [congruence|]. exists x. auto.
Qed.

Lemma any_browser_video_playing_app (a b : list Session) :
  any_browser_video_playing (a ++ b) =
  Err.seq (any_browser_video_playing a)
    (fun r => if r then Ok true else any_browser_video_playing b).
Proof.
  induction a as [|s a IH]; simpl; [reflexivity|].
  destruct (getattr_aumid s) as [aumid|e]; simpl; [|reflexivity].
  destruct (is_browser_session aumid); simpl; [|exact IH].
  destruct (get_playback_info s) as [[st pt]|e]; simpl; [|reflexivity].
  destruct (status_eq st _); [reflexivity | exact IH].
Qed.

Lemma pick_spotify_session_app (a b : list Session) :
  pick_spotify_session (a ++ b) =
  Err.seq (pick_spotify_session a)
    (fun r => match r with
              | Some s => Ok (Some s)
              | None => pick_spotify_session b
              end).
Proof.
  induction a as [|s a IH]; simpl; [reflexivity|].
  destruct (getattr_aumid s) as [aumid|e]; simpl; [|reflexivity].
  destruct (is_spotify_session aumid); [reflexivity | exact IH].
Qed.

Lemma pick_spotify_session_total (sessions : list Session) :
  Forall aumid_readable sessions ->
  exists r, pick_spotify_session sessions = Ok r.
Proof.
  induction 1 as [|s rest Hs _ IH]; simpl; [now exists None|].
  destruct (getattr_aumid_readable s Hs) as (a & -> & _). simpl.
  destruct (is_spotify_session a); [now exists (Some s) | exact IH].
Qed.

(** When no session is picked, every AUMID has been read. *)
Lemma pick_spotify_session_none_iff (sessions : list Session) :
  pick_spotify_session sessions = Ok None <->
  Forall (fun s => aumid_readable s /\
                   is_spotify_session (Some (identity s)) = false) sessions.
Proof.
  induction sessions as [|s rest IH]; simpl.
  - split; auto.
  - destruct (getattr_aumid s) as [a|e] eqn:Ha; simpl.
    + pose proof (getattr_aumid_ok_readable s a Ha) as Hs.
      destruct (getattr_aumid_readable s Hs) as (a' & Ha' & Hid).
      assert (a' = a) by congruence. subst a'.
      rewrite (is_spotify_session_or_empty a), Hid.
      destruct (is_spotify_session (Some (identity s))) eqn:Hsp.
      * split; [discriminate|]. intros H. inversion H as [|? ? [_ Hx] _].
        congruence.
      * rewrite IH. split; [now constructor | intros H; now inversion H].
    + split; [discriminate|]. intros H. inversion H as [|? ? [Hs _] _].
      destruct (getattr_aumid_readable s Hs) as (a & Ha' & _). congruence.
Qed.

Lemma pick_spotify_session_first (sessions : list Session) (s : Session) :
  pick_spotify_session sessions = Ok (Some s) ->
  exists pre post,
    sessions = pre ++ s :: post /\
    aumid_readable s /\
    is_spotify_session (Some (identity s)) = true /\
    Forall (fun x => aumid_readable x /\
                     is_spotify_session (Some (identity x)) = false) pre.
Proof.
  induction sessions as [|x rest IH]; simpl; [discriminate|].
  destruct (getattr_aumid x) as [a|e] eqn:Ha; simpl; [|discriminate].
  pose proof (getattr_aumid_ok_readable x a Ha) as Hx.
  destruct (getattr_aumid_readable x Hx) as (a' & Ha' & Hid).
  assert (a' = a) by congruence. subst a'.
  rewrite (is_spotify_session_or_empty a), Hid.
  destruct (is_spotify_session (Some (identity x))) eqn:Hsp.
  - intros H. injection H as ->. exists [], rest. repeat split; auto.
  - intros H. destruct (IH H) as (pre & post & -> & Hs & Hm & Hpre).
    exists (x :: pre), post. repeat split; auto.
Qed.

Lemma get_spotify_playing_total (s : option Session) :
  exists r, get_spotify_playing s = Ok r.
Proof.
  destruct s as [s|]; simpl; [|now exists None].
  destruct (get_playback_info_total s) as (st & pt & ->). simpl.
  destruct st; eauto.
Qed.

Lemma classify_inv (sessions : list Session) (bp : bool)
    (ss : option Session) (sp : option bool) :
  classify sessions = Ok (bp, ss, sp) ->
  any_browser_video_playing sessions = Ok bp /\
  pick_spotify_session sessions = Ok ss /\
  get_spotify_playing ss = Ok sp.
Proof.
  unfold classify.
  destruct (any_browser_video_playing sessions) as [b|e]; simpl;
    [|discriminate].
  destruct (pick_spotify_session sessions) as [p|e]; simpl; [|discriminate].
  destruct (get_spotify_playing p) as [r|e] eqn:Hsp; simpl; [|discriminate].
  unfold Err.pure. intros H. injection H as -> -> ->. auto.
Qed.

Lemma classify_total (sessions : list Session) :
  Forall aumid_readable sessions ->
  exists bp ss sp, classify sessions = Ok (bp, ss, sp).
Proof.
  intros Hread. unfold classify.
  destruct (any_browser_video_playing_total sessions Hread) as (b & ->).
  destruct (pick_spotify_session_total sessions Hread) as (p & ->).
  destruct (get_spotify_playing_total p) as (r & Hr).
  simpl. rewrite Hr. simpl. eauto.
Qed.

End Classifier.

(** * Claims on the classifier *)

(** C6. The claim fails on the code where an identity cannot be read.  A
    browser session is playing and its identity matches, yet
    [any_browser_video_playing] gives no answer when a session that has
    gone away comes first in the snapshot: the read of its AUMID raises and
    nothing catches it.  With the two sessions in the other order the
    answer is [True]. *)
Theorem C6_video_active_lost_when_an_identity_read_raises :
  let chrome := responsive "Chrome" PlaybackStatus.PLAYING in
  In chrome [closed_session; chrome] /\
  video_source chrome /\
  status_reads chrome PlaybackStatus.PLAYING /\
  any_browser_video_playing [closed_session; chrome] = Raise (Exception 9) /\
  any_browser_video_playing [chrome; closed_session] = Ok true.
Proof.
  intros chrome. split; [right; now left|]. split.
  { exists "chrome"%string. split; [now left|].
    exists ""%string, "Chrome"%string, ""%string. split; reflexivity. }
  split; [|split; reflexivity].
  exists (readable_info PlaybackStatus.PLAYING).
  split; [left|]; reflexivity.
Qed.

(** C7. The claim fails on the code where an identity cannot be read.  The
    first session whose identity contains the player token is [spotify],
    yet [pick_spotify_session] returns no session when a session that has
    gone away precedes it: the read of its AUMID raises and nothing
    catches it. *)
Theorem C7_player_session_lost_when_an_identity_read_raises :
  let spotify := responsive "Spotify.exe" PlaybackStatus.PLAYING in
  music_player spotify /\
  status_reads spotify PlaybackStatus.PLAYING /\
  pick_spotify_session [closed_session; spotify] = Raise (Exception 9) /\
  classify [closed_session; spotify] = Raise (Exception 9) /\
  pick_spotify_session [spotify; closed_session] = Ok (Some spotify).
Proof.
  intros spotify. split.
  { exists ""%string, "Spotify"%string, ".exe"%string. split; reflexivity. }
  split; [|repeat split; reflexivity].
  exists (readable_info PlaybackStatus.PLAYING).
  split; [left|]; reflexivity.
Qed.

(** C10. The claim fails on the code.  A session that has gone away has
    an unreadable status; on a snapshot that holds it the read of its AUMID
    raises, the exception leaves the classifier, and it leaves
    [monitor_loop] too, which ends in its first cycle although a playing
    browser session follows in the snapshot. *)
Theorem C10_exception_escapes_the_classifier :
  let chrome := responsive "Chrome" PlaybackStatus.PLAYING in
  let mgr := {| get_sessions := fun _ => Ok [closed_session; chrome] |} in
  status_read_fails closed_session /\
  classify [closed_session; chrome] = Raise (Exception 9) /\
  monitor_loop 3 (Ok mgr) (set_at 1000) start_world =
    (Raise (Exception 9), {| now := 0; events := [Print LogStarted] |}).
Proof.
  intros chrome mgr. split.
  { apply (call_raises_attr_raises _ (Exception 9) (Exception 9));
      reflexivity. }
  split; reflexivity.
Qed.

(** * The executor and one cycle *)

Section Cycle.

Lemma extend_nil (w : World) : extend w [] = w.
Proof.
  destruct w as [t evs]. unfold extend. simpl. now rewrite app_nil_r.
Qed.

Lemma extend_extend (w : World) (a b : list Event) :
  extend (extend w a) b = extend w (a ++ b).
Proof.
  unfold extend. simpl. now rewrite app_assoc.
Qed.

Lemma requests_of_app (a b : list Event) :
  requests_of (a ++ b) = requests_of a ++ requests_of b.
Proof.
  unfold requests_of. now rewrite flat_map_app.
Qed.

Lemma invokes_of_app (a b : list Event) :
  invokes_of (a ++ b) = invokes_of a ++ invokes_of b.
Proof.
  unfold invokes_of. now rewrite flat_map_app.
Qed.

Lemma emit_run (e : Event) (w : World) : Eff.emit e w = (Ok tt, extend w [e]).
Proof. reflexivity. Qed.

Lemma call_method_run (a : Action) (s : Session) (w : World) :
  call_method a s w =
  (method_of a s (length (events w)), extend w [Invoke a s]).
Proof. reflexivity. Qed.

(** A request always comes back with a boolean.  It logs the request, then
    at most two calls of the platform method, and nothing else; with no
    session it answers [false] and calls nothing. *)
Lemma try_spotify_run (a : Action) (s : option Session) (w : World) :
  exists b calls,
    try_spotify a s w = (Ok b, extend w (Request a s :: calls)) /\
    requests_of calls = [] /\
    (forall x, s = Some x ->
       calls = [Invoke a x] \/ calls = [Invoke a x; Invoke a x]) /\
    (s = None -> b = false /\ calls = []).
Proof.
  unfold try_spotify, Eff.bind. rewrite emit_run.
  destruct s as [s|].
  - unfold Eff.try_except, Eff.bind, await, Eff.lift, Eff.ret.
    rewrite call_method_run.
    set (w1 := extend w [Request a (Some s)]).
    assert (Hhandler :
      exists b,
        (let (o, w') := call_method a s (extend w1 [Invoke a s]) in
         match o with
         | Ok _ => (Ok true, w')
         | Raise _ => (Ok false, w')
         end) =
        (Ok b, extend w [Request a (Some s); Invoke a s; Invoke a s])).
    { rewrite call_method_run. subst w1. rewrite !extend_extend. simpl.
      match goal with |- context [method_of a s ?n] =>
        destruct (method_of a s n) end; eauto. }
    destruct (method_of a s (length (events w1))) as [[b|e]|e].
    + exists true, [Invoke a s]. subst w1. rewrite extend_extend.
      repeat split; auto. intros x Hx. injection Hx as <-. auto.
      discriminate. discriminate.
    + destruct Hhandler as (b & Hb).
      exists b, [Invoke a s; Invoke a s].
      repeat split; auto.
      * rewrite <- Hb. destruct (call_method a s _) as [[?|?] ?]; reflexivity.
      * intros x Hx. injection Hx as <-. auto.
      * discriminate.
      * discriminate.
    + destruct Hhandler as (b & Hb).
      exists b, [Invoke a s; Invoke a s].
      repeat split; auto.
      * rewrite <- Hb. destruct (call_method a s _) as [[?|?] ?]; reflexivity.
      * intros x Hx. injection Hx as <-. auto.
      * discriminate.
      * discriminate.
  - exists false, []. repeat split; auto. discriminate.
Qed.

Lemma on_change_run (st : LoopState) (bp : bool) (ss : option Session)
    (sp : option bool) (w : World) :
  exists evs,
    on_change st bp ss sp w = (Ok tt, extend w evs) /\
    requests_of evs = edge_requests (last_browser_playing st) bp sp /\
    (ss = None -> invokes_of evs = []).
Proof.
  unfold on_change, edge_requests.
  destruct (browser_changed (last_browser_playing st) bp).
  2:{ exists []. rewrite extend_nil. auto. }
  unfold Eff.bind, Eff.print. rewrite emit_run.
  assert (Hreq : forall a,
    exists evs,
      (let (o, w') := try_spotify a ss (extend w [Print (LogBrowserNow bp)]) in
       match o with
       | Ok ok =>
           (if ok
            then Eff.emit (Print match a with Pause => LogPaused
                                            | Play => LogPlayed end)
            else Eff.ret tt) w'
       | Raise e => (Raise e, w')
       end) = (Ok tt, extend w evs) /\
      requests_of evs = [a] /\ (ss = None -> invokes_of evs = [])).
  { intros a.
    destruct (try_spotify_run a ss (extend w [Print (LogBrowserNow bp)]))
      as (b & calls & -> & Hreq & Hcalls & Hnone).
    destruct b.
    - rewrite emit_run, !extend_extend. eexists. split; [reflexivity|].
      split.
      + simpl. rewrite requests_of_app, Hreq. now destruct a.
      + intros H. destruct (Hnone H). discriminate.
    - unfold Eff.ret. rewrite extend_extend. eexists. split; [reflexivity|].
      split.
      + simpl. now rewrite Hreq.
      + intros H. destruct (Hnone H) as (_ & ->). reflexivity. }
  destruct bp.
  - destruct (is_not_False sp).
    + exact (Hreq Pause).
    + exists [Print (LogBrowserNow true)]. auto.
  - destruct (is_not_True sp).
    + exact (Hreq Play).
    + exists [Print (LogBrowserNow false)]. auto.
Qed.

Lemma reconcile_gently_run (bp : bool) (ss : option Session)
    (sp : option bool) (w : World) :
  exists evs,
    reconcile_gently bp ss sp w = (Ok tt, extend w evs) /\
    requests_of evs = level_requests bp sp /\
    (ss = None -> invokes_of evs = []).
Proof.
  unfold reconcile_gently, level_requests.
  assert (Hreq : forall a,
    exists evs,
      (try_spotify a ss ;;; Eff.ret tt) w = (Ok tt, extend w evs) /\
      requests_of evs = [a] /\ (ss = None -> invokes_of evs = [])).
  { intros a. unfold Eff.bind.
    destruct (try_spotify_run a ss w) as (b & calls & -> & Hreq & _ & Hnone).
    eexists. split; [reflexivity|]. split.
    - simpl. now rewrite Hreq.
    - intros H. destruct (Hnone H) as (_ & ->). reflexivity. }
  destruct (bp && truthy sp); [exact (Hreq Pause)|].
  destruct (negb bp && is_False sp); [exact (Hreq Play)|].
  exists []. rewrite extend_nil. auto.
Qed.

(** One cycle never raises, leaves the clock alone, and makes exactly the
    requests of its two blocks, in that order. *)
Lemma reconcile_run (st : LoopState) (sessions : list Session) (w : World)
    (bp : bool) (ss : option Session) (sp : option bool) :
  classify sessions = Ok (bp, ss, sp) ->
  exists evs,
    reconcile st sessions w =
      (Ok {| last_browser_playing := Some bp; last_spotify_playing := sp |},
       extend w evs) /\
    requests_of evs =
      edge_requests (last_browser_playing st) bp sp ++ level_requests bp sp /\
    (ss = None -> invokes_of evs = []).
Proof.
  intros Hc. unfold reconcile, Eff.bind, Eff.lift. rewrite Hc.
  destruct (on_change_run st bp ss sp w) as (e1 & -> & Hr1 & Hi1).
  destruct (reconcile_gently_run bp ss sp (extend w e1))
    as (e2 & -> & Hr2 & Hi2).
  exists (e1 ++ e2). rewrite extend_extend. unfold Eff.ret.
  repeat split; auto.
  - now rewrite requests_of_app, Hr1, Hr2.
  - intros H. now rewrite invokes_of_app, Hi1, Hi2.
Qed.

(** A cycle whose classification raises stops there: it has printed,
    requested and called nothing. *)
Lemma reconcile_raises (st : LoopState) (sessions : list Session) (w : World)
    (e : exn) :
  classify sessions = Raise e ->
  reconcile st sessions w = (Raise e, w).
Proof.
  intros Hc. unfold reconcile, Eff.bind, Eff.lift. now rewrite Hc.
Qed.

End Cycle.

(** * The loop *)

Section Loop.

Variable stop_event : ThreadingEvent.
Variable mgr : Mgr.

Lemma list_sessions_run (w : World) :
  list_sessions mgr w = (Ok (snapshot mgr w), w).
Proof.
  unfold list_sessions, snapshot, Eff.try_except, Eff.bind, Eff.clock,
    Eff.lift, Eff.ret.
  destruct (get_sessions mgr (now w)); reflexivity.
Qed.

(** The body of the loop on a snapshot that classifies ends
    [POLL_INTERVAL] later, whatever the requests answered. *)
Lemma loop_body_classified (st : LoopState) (w : World)
    (c : bool * option Session * option bool) :
  classify (snapshot mgr w) = Ok c ->
  exists st' evs,
    loop_body mgr st w =
    (Ok st', {| now := now w + POLL_INTERVAL; events := events w ++ evs |}).
Proof.
  destruct c as [[bp ss] sp]. intros Hc.
  unfold loop_body, Eff.bind. rewrite list_sessions_run.
  destruct (reconcile_run st _ w bp ss sp Hc) as (evs & -> & _).
  eexists. exists evs. reflexivity.
Qed.

(** The body of the loop on a snapshot whose classification raises raises
    the same, having done nothing. *)
Lemma loop_body_raises (st : LoopState) (w : World) (e : exn) :
  classify (snapshot mgr w) = Raise e ->
  loop_body mgr st w = (Raise e, w).
Proof.
  intros Hc. unfold loop_body, Eff.bind. rewrite list_sessions_run.
  now rewrite (reconcile_raises st _ w e Hc).
Qed.

Lemma well_read_classifies (w : World) :
  well_read mgr -> exists c, classify (snapshot mgr w) = Ok c.
Proof.
  intros Hread. unfold snapshot.
  destruct (get_sessions mgr (now w)) as [sessions|e] eqn:Hget.
  - destruct (classify_total sessions (Hread _ _ Hget)) as (bp & ss & sp & H).
    eauto.
  - now exists (false, None, None).
Qed.

Lemma monitor_while_unfold (fuel : nat) (st : LoopState) (w : World) :
  monitor_while (S fuel) stop_event mgr st w =
  if is_set stop_event (now w) then (Ok (Some st), w)
  else match loop_body mgr st w with
       | (Ok st', w') => monitor_while fuel stop_event mgr st' w'
       | (Raise e, w') => (Raise e, w')
       end.
Proof.
  cbn [monitor_while]. unfold Eff.bind, Eff.clock, Eff.ret.
  destruct (is_set stop_event (now w)); reflexivity.
Qed.

Section WellRead.

Hypothesis mgr_well_read : well_read mgr.

Lemma loop_body_run (st : LoopState) (w : World) :
  exists st' evs,
    loop_body mgr st w =
    (Ok st', {| now := now w + POLL_INTERVAL; events := events w ++ evs |}).
Proof.
  destruct (well_read_classifies w mgr_well_read) as (c & Hc).
  exact (loop_body_classified st w c Hc).
Qed.

(** The loop leaves at the first top of a cycle at which the signal reads
    as set: these are the times [now w + k * POLL_INTERVAL]. *)
Lemma monitor_while_exit (k : nat) :
  forall (fuel : nat) (st : LoopState) (w : World),
    k < fuel ->
    (forall j, j < k -> is_set stop_event (now w + j * POLL_INTERVAL) = false) ->
    is_set stop_event (now w + k * POLL_INTERVAL) = true ->
    exists st' evs,
      monitor_while fuel stop_event mgr st w =
      (Ok (Some st'),
       {| now := now w + k * POLL_INTERVAL; events := events w ++ evs |}).
Proof.
  induction k as [|k IH]; intros fuel st w Hfuel Hbefore Hat;
    (destruct fuel as [|fuel]; [lia|]); rewrite monitor_while_unfold.
  - replace (now w + 0 * POLL_INTERVAL) with (now w) in * by lia.
    rewrite Hat. exists st, []. destruct w as [t evs]. simpl.
    now rewrite app_nil_r.
  - pose proof (Hbefore 0 ltac:(lia)) as H0.
    replace (now w + 0 * POLL_INTERVAL) with (now w) in H0 by lia.
    rewrite H0.
    destruct (loop_body_run st w) as (st1 & e1 & ->).
    destruct (IH fuel st1
                {| now := now w + POLL_INTERVAL; events := events w ++ e1 |})
      as (st' & e2 & ->).
    + lia.
    + intros j Hj. cbn [now].
      replace (now w + POLL_INTERVAL + j * POLL_INTERVAL)
        with (now w + S j * POLL_INTERVAL) by lia.
      apply Hbefore. lia.
    + cbn [now].
      replace (now w + POLL_INTERVAL + k * POLL_INTERVAL)
        with (now w + S k * POLL_INTERVAL) by lia.
      exact Hat.
    + exists st', (e1 ++ e2). cbn [now events]. rewrite app_assoc.
      replace (now w + POLL_INTERVAL + k * POLL_INTERVAL)
        with (now w + S k * POLL_INTERVAL) by lia.
      reflexivity.
Qed.

End WellRead.

End Loop.

(** * Claims on the policy and the executor *)

(** C1, as amended.  In every cycle in which [player_active] is Unknown,
    the action that corresponds to [video_active] is requested exactly when
    the browser state changed since the previous cycle, the first cycle
    counting as a change; when it did not change, the cycle requests
    nothing. *)
Theorem C1_unknown_player_acts_on_change_only :
  forall (st : LoopState) (sessions : list Session) (w : World)
         (video_active : bool) (player_session : option Session),
    classify sessions = Ok (video_active, player_session, None) ->
    exists evs,
      any_browser_video_playing sessions = Ok video_active /\
      reconcile st sessions w =
        (Ok {| last_browser_playing := Some video_active;
               last_spotify_playing := None |},
         extend w evs) /\
      requests_of evs =
        if browser_changed (last_browser_playing st) video_active
        then [if video_active then Pause else Play]
        else [].
Proof.
  intros st sessions w b ps Hc.
  destruct (reconcile_run st sessions w b ps None Hc) as (evs & Hrun & Hreq & _).
  destruct (classify_inv _ _ _ _ Hc) as (Hb & _).
  exists evs. repeat split; auto.
  rewrite Hreq. unfold edge_requests, level_requests.
  destruct (browser_changed _ b), b; reflexivity.
Qed.

Lemma C1_unknown_player_acts_on_change_only_witness :
  exists evs,
    any_browser_video_playing [unreadable "Spotify.exe"] = Ok false /\
    reconcile initial_state [unreadable "Spotify.exe"] start_world =
      (Ok {| last_browser_playing := Some false;
             last_spotify_playing := None |},
       extend start_world evs) /\
    requests_of evs =
      if browser_changed (last_browser_playing initial_state) false
      then [if false then Pause else Play]
      else [].
Proof.
  apply (C1_unknown_player_acts_on_change_only
           initial_state [unreadable "Spotify.exe"] start_world
           false (Some (unreadable "Spotify.exe"))).
  reflexivity.
Defined.

(** C1, as stated, fails: a browser keeps playing and the player's status
    is unreadable; the previous cycle already saw the browser playing, and
    this cycle requests nothing.  The same happens on the empty snapshot
    once a first cycle has run. *)
Lemma C1_counterexample :
  let chrome := responsive "Chrome" PlaybackStatus.PLAYING in
  let spotify := unreadable "Spotify.exe" in
  let st := {| last_browser_playing := Some true;
               last_spotify_playing := None |} in
  let st0 := {| last_browser_playing := Some false;
                last_spotify_playing := None |} in
  classify [chrome; spotify] = Ok (true, Some spotify, None) /\
  reconcile st [chrome; spotify] start_world = (Ok st, start_world) /\
  requests_of (events (snd (reconcile st [chrome; spotify] start_world))) = [] /\
  classify [] = Ok (false, None, None) /\
  reconcile st0 [] start_world = (Ok st0, start_world) /\
  requests_of (events (snd (reconcile st0 [] start_world))) = [].
Proof.
  repeat split.
Qed.

(** C3. For every previous state, a cycle that finds [video_active] true
    and [player_active] True requests a pause: once when the browser state
    is unchanged, twice when it changed; it never requests a play. *)
Theorem C3_pause_requested_every_cycle :
  forall (st : LoopState) (sessions : list Session) (w : World),
    any_browser_video_playing sessions = Ok true ->
    Err.seq (pick_spotify_session sessions) get_spotify_playing =
      Ok (Some true) ->
    exists evs,
      reconcile st sessions w =
        (Ok {| last_browser_playing := Some true;
               last_spotify_playing := Some true |},
         extend w evs) /\
      In Pause (requests_of evs) /\
      requests_of evs =
        if browser_changed (last_browser_playing st) true
        then [Pause; Pause] else [Pause].
Proof.
  intros st sessions w Hb Hsp.
  assert (Hc : exists ps, classify sessions = Ok (true, ps, Some true)).
  { unfold classify. rewrite Hb. simpl.
    destruct (pick_spotify_session sessions) as [ps|e]; simpl in *;
      [|discriminate].
    exists ps. now rewrite Hsp. }
  destruct Hc as (ps & Hc).
  destruct (reconcile_run st sessions w true ps (Some true) Hc)
    as (evs & Hrun & Hreq & _).
  exists evs. split; [exact Hrun|].
  assert (E : requests_of evs =
              if browser_changed (last_browser_playing st) true
              then [Pause; Pause] else [Pause]).
  { rewrite Hreq. unfold edge_requests, level_requests.
    destruct (browser_changed _ true); reflexivity. }
  split; [|exact E].
  rewrite E. destruct (browser_changed _ true); simpl; auto.
Qed.

Lemma C3_pause_requested_every_cycle_witness :
  let sessions := [responsive "Chrome" PlaybackStatus.PLAYING;
                   responsive "Spotify.exe" PlaybackStatus.PLAYING] in
  let st := {| last_browser_playing := Some true;
               last_spotify_playing := Some true |} in
  exists evs,
    reconcile st sessions start_world = (Ok st, extend start_world evs) /\
    In Pause (requests_of evs) /\
    requests_of evs =
      if browser_changed (last_browser_playing st) true
      then [Pause; Pause] else [Pause].
Proof.
  apply (C3_pause_requested_every_cycle
           {| last_browser_playing := Some true;
              last_spotify_playing := Some true |}
           [responsive "Chrome" PlaybackStatus.PLAYING;
            responsive "Spotify.exe" PlaybackStatus.PLAYING]
           start_world); reflexivity.
Defined.

(** C4. From the initial state of [monitor_loop], a cycle on the empty
    snapshot classifies [video_active] false, no player session and
    [player_active] Unknown, and makes one play request; run from the start
    of [monitor_loop], that is the only request of the first cycle. *)
Theorem C4_empty_snapshot_from_initial_state :
  classify [] = Ok (false, None, None) /\
  (forall w : World,
     reconcile initial_state [] w =
       (Ok {| last_browser_playing := Some false;
              last_spotify_playing := None |},
        extend w [Print (LogBrowserNow false); Request Play None])) /\
  monitor_loop 2 (Ok quiet_mgr) (set_at 1) start_world =
    (Ok (Some tt),
     {| now := POLL_INTERVAL;
        events := [Print LogStarted; Print (LogBrowserNow false);
                   Request Play None; Print LogStopSignal] |}).
Proof.
  split; [reflexivity|]. split; [|reflexivity].
  intros w. unfold extend. cbv -[app]. now rewrite <- app_assoc.
Qed.

(** C5. With no player session, [try_spotify_pause] and [try_spotify_play]
    answer [False] at once, having called no platform method; hence a cycle
    whose snapshot has no player session calls no platform method, whatever
    it requests. *)
Theorem C5_no_session_no_platform_call :
  forall (player_session : option Session) (w : World),
    player_session = None ->
    try_spotify_pause player_session w =
      (Ok false, extend w [Request Pause None]) /\
    try_spotify_play player_session w =
      (Ok false, extend w [Request Play None]) /\
    forall (st : LoopState) (sessions : list Session),
      pick_spotify_session sessions = Ok player_session ->
      exists st' evs,
        reconcile st sessions w = (Ok st', extend w evs) /\
        invokes_of evs = [].
Proof.
  intros player_session w ->. repeat split.
  intros st sessions Hpick.
  assert (Hread : Forall aumid_readable sessions).
  { apply pick_spotify_session_none_iff in Hpick.
    rewrite Forall_forall in *. intros s Hs. now apply Hpick. }
  destruct (classify_total sessions Hread) as (bp & ss & sp & Hc).
  destruct (classify_inv _ _ _ _ Hc) as (_ & Hss & _).
  assert (ss = None) by congruence. subst ss.
  destruct (reconcile_run st sessions w bp None sp Hc) as (evs & Hrun & _ & Hinv).
  eauto.
Qed.

Lemma C5_no_session_no_platform_call_witness :
  try_spotify_pause None start_world =
    (Ok false, extend start_world [Request Pause None]) /\
  try_spotify_play None start_world =
    (Ok false, extend start_world [Request Play None]) /\
  exists st' evs,
    reconcile initial_state [] start_world = (Ok st', extend start_world evs) /\
    invokes_of evs = [].
Proof.
  destruct (C5_no_session_no_platform_call None start_world eq_refl)
    as (Hpause & Hplay & Hcycle).
  split; [exact Hpause|]. split; [exact Hplay|].
  exact (Hcycle initial_state [] eq_refl).
Defined.

(** * Claims on failures and on the loop *)

(** C8. [try_spotify_pause] and [try_spotify_play] always come back with a
    boolean, whatever the session does, and never raise; the body of the
    loop therefore completes whatever the requests answered, and the loop
    goes on to test its condition for the next cycle.  The body stops
    short in one case only, which no request is part of: when the
    classification of the snapshot raised, before any request is made. *)
Theorem C8_requests_return_bool_and_loop_goes_on :
  forall (s : option Session) (w : World),
    (exists b w', try_spotify_pause s w = (Ok b, w') /\ now w' = now w) /\
    (exists b w', try_spotify_play s w = (Ok b, w') /\ now w' = now w) /\
    forall (mgr : Mgr) (st : LoopState),
      match classify (snapshot mgr w) with
      | Ok _ =>
          exists st' w',
            loop_body mgr st w = (Ok st', w') /\
            forall (stop_event : ThreadingEvent) (fuel : nat),
              is_set stop_event (now w) = false ->
              monitor_while (S fuel) stop_event mgr st w =
              monitor_while fuel stop_event mgr st' w'
      | Raise e => loop_body mgr st w = (Raise e, w)
      end.
Proof.
  intros s w.
  assert (Hreq : forall a,
            exists b w', try_spotify a s w = (Ok b, w') /\ now w' = now w).
  { intros a. destruct (try_spotify_run a s w) as (b & calls & -> & _).
    eexists. eexists. split; reflexivity. }
  split; [exact (Hreq Pause)|]. split; [exact (Hreq Play)|].
  intros mgr st.
  destruct (classify (snapshot mgr w)) as [c|e] eqn:Hc.
  - destruct (loop_body_classified mgr st w c Hc) as (st' & evs & Hbody).
    eexists. eexists. split; [exact Hbody|].
    intros stop_event fuel Hstop.
    now rewrite monitor_while_unfold, Hstop, Hbody.
  - exact (loop_body_raises mgr st w e Hc).
Qed.

(** With a player whose commands always raise, every request answers
    [False], and the loop still runs its cycles until the signal is seen. *)
Lemma C8_requests_return_bool_and_loop_goes_on_witness :
  let spotify := unresponsive "Spotify.exe" PlaybackStatus.PLAYING in
  let chrome := responsive "Chrome" PlaybackStatus.PLAYING in
  let mgr := {| get_sessions := fun _ => Ok [chrome; spotify] |} in
  (exists b w', try_spotify_pause (Some spotify) start_world = (Ok b, w') /\
                now w' = now start_world) /\
  fst (try_spotify_pause (Some spotify) start_world) = Ok false /\
  exists st' w',
    loop_body mgr initial_state start_world = (Ok st', w') /\
    monitor_while 3 (set_at 501) mgr initial_state start_world =
    monitor_while 2 (set_at 501) mgr st' w'.
Proof.
  intros spotify chrome mgr.
  destruct (C8_requests_return_bool_and_loop_goes_on (Some spotify) start_world)
    as (Hpause & _ & Hloop).
  split; [exact Hpause|]. split; [reflexivity|].
  pose proof (Hloop mgr initial_state) as Hcycle.
  change (classify (snapshot mgr start_world))
    with (Ok (true, Some spotify, Some true)) in Hcycle.
  destruct Hcycle as (st' & w' & Hbody & Hnext).
  exists st', w'. split; [exact Hbody|].
  apply Hnext. reflexivity.
Defined.

(** C9. When the enumeration of sessions raises in some cycle,
    [list_sessions] gives the empty list; the cycle is the cycle on the
    empty snapshot (no video active, no player session); nothing is raised
    and the loop goes on to test its condition for the next cycle. *)
Theorem C9_failed_enumeration_is_empty_snapshot :
  forall (mgr : Mgr) (st : LoopState) (w : World) (e : exn),
    get_sessions mgr (now w) = Raise e ->
    list_sessions mgr w = (Ok [], w) /\
    classify [] = Ok (false, None, None) /\
    loop_body mgr st w =
      (st' <- reconcile st [] ;; Eff.sleep POLL_INTERVAL ;;; Eff.ret st') w /\
    exists st' w',
      loop_body mgr st w = (Ok st', w') /\
      forall (stop_event : ThreadingEvent) (fuel : nat),
        is_set stop_event (now w) = false ->
        monitor_while (S fuel) stop_event mgr st w =
        monitor_while fuel stop_event mgr st' w'.
Proof.
  intros mgr st w e Hfail.
  assert (Hsnap : snapshot mgr w = []).
  { unfold snapshot. now rewrite Hfail. }
  assert (Hlist : list_sessions mgr w = (Ok [], w)).
  { now rewrite list_sessions_run, Hsnap. }
  split; [exact Hlist|]. split; [reflexivity|]. split.
  - unfold loop_body. unfold Eff.bind at 1. now rewrite Hlist.
  - destruct (loop_body_classified mgr st w (false, None, None))
      as (st' & evs & Hbody); [now rewrite Hsnap|].
    eexists. eexists. split; [exact Hbody|].
    intros stop_event fuel Hstop.
    now rewrite monitor_while_unfold, Hstop, Hbody.
Qed.

Lemma C9_failed_enumeration_is_empty_snapshot_witness :
  list_sessions failing_mgr start_world = (Ok [], start_world) /\
  classify [] = Ok (false, None, None) /\
  loop_body failing_mgr initial_state start_world =
    (st' <- reconcile initial_state [] ;;
     Eff.sleep POLL_INTERVAL ;;; Eff.ret st') start_world /\
  exists st' w',
    loop_body failing_mgr initial_state start_world = (Ok st', w') /\
    monitor_while 2 (set_at 1) failing_mgr initial_state start_world =
    monitor_while 1 (set_at 1) failing_mgr st' w'.
Proof.
  destruct (C9_failed_enumeration_is_empty_snapshot
              failing_mgr initial_state start_world (Exception 3) eq_refl)
    as (Hlist & Hclass & Hsame & st' & w' & Hbody & Hnext).
  split; [exact Hlist|]. split; [exact Hclass|]. split; [exact Hsame|].
  exists st', w'. split; [exact Hbody|].
  apply Hnext. reflexivity.
Defined.

(** C2, as amended.  The signal is read only by the [while] condition, at
    the top of a cycle; the wait is one uninterrupted sleep of
    [POLL_INTERVAL].  So when the signal is not yet set at the top of a
    cycle, the cycle reaches its wait, and the signal becomes set at any
    time [t0] before the end of that wait, the loop leaves exactly when the
    whole wait has elapsed, at the top of the next cycle, in the state and
    with the log that the cycle left. *)
Theorem C2_signal_seen_when_wait_has_elapsed :
  forall (fuel : nat) (mgr : Mgr) (st st1 : LoopState) (w w1 : World)
         (t0 : nat),
    loop_body mgr st w = (Ok st1, w1) ->
    now w < t0 <= now w + POLL_INTERVAL ->
    monitor_while (S (S fuel)) (set_at t0) mgr st w = (Ok (Some st1), w1) /\
    now w1 = now w + POLL_INTERVAL /\
    exists evs, events w1 = events w ++ evs.
Proof.
  intros fuel mgr st st1 w w1 t0 Hbody [Hlo Hhi].
  assert (Hw1 : now w1 = now w + POLL_INTERVAL /\
                exists evs, events w1 = events w ++ evs).
  { destruct (classify (snapshot mgr w)) as [c|e] eqn:Hc.
    - destruct (loop_body_classified mgr st w c Hc) as (st' & evs & H).
      rewrite H in Hbody. injection Hbody as _ <-. cbn [now events]. eauto.
    - rewrite (loop_body_raises mgr st w e Hc) in Hbody. discriminate. }
  split; [|exact Hw1]. destruct Hw1 as (Hnow & _).
  rewrite monitor_while_unfold. cbn [is_set set_at].
  rewrite (proj2 (Nat.leb_gt t0 (now w)) Hlo), Hbody.
  rewrite monitor_while_unfold. cbn [is_set set_at].
  rewrite Hnow, (proj2 (Nat.leb_le t0 (now w + POLL_INTERVAL)) Hhi).
  reflexivity.
Qed.

Lemma C2_signal_seen_when_wait_has_elapsed_witness :
  let st1 := {| last_browser_playing := Some false;
                last_spotify_playing := None |} in
  let w1 := {| now := POLL_INTERVAL;
               events := [Print (LogBrowserNow false); Request Play None] |} in
  monitor_while 2 (set_at 1) quiet_mgr initial_state start_world =
    (Ok (Some st1), w1) /\
  now w1 = now start_world + POLL_INTERVAL /\
  exists evs, events w1 = events start_world ++ evs.
Proof.
  apply (C2_signal_seen_when_wait_has_elapsed
           0 quiet_mgr initial_state
           {| last_browser_playing := Some false;
              last_spotify_playing := None |}
           start_world
           {| now := POLL_INTERVAL;
              events := [Print (LogBrowserNow false); Request Play None] |}
           1).
  - reflexivity.
  - cbn [now start_world]. unfold POLL_INTERVAL. lia.
Defined.

(** C2, as stated, fails: the loop starts at time 0 and the signal is set
    one millisecond into the first wait; the loop stops at time
    [POLL_INTERVAL], when the full wait is over, and the run is the very run
    obtained when the signal is set only at the end of the wait. *)
Lemma C2_counterexample :
  monitor_loop 2 (Ok quiet_mgr) (set_at 1) start_world =
    (Ok (Some tt),
     {| now := 500;
        events := [Print LogStarted; Print (LogBrowserNow false);
                   Request Play None; Print LogStopSignal] |}) /\
  monitor_loop 2 (Ok quiet_mgr) (set_at 1) start_world =
  monitor_loop 2 (Ok quiet_mgr) (set_at POLL_INTERVAL) start_world.
Proof.
  split; reflexivity.
Qed.

(** * Further properties of the classifier *)

(** X1. The status of a session reads as [v] exactly when the info object
    that [get_playback_info] ends up with, the one returned by the method,
    or the attribute when (and only when) the method raised, has a
    [playback_status] that reads as [v]; whether [playback_type] can be
    read plays no part. *)
Theorem X1_status_is_iff_reads :
  forall (s : Session) (v : Z),
    status_is s v <->
    exists i,
      (get_playback_info_call s = Ok (Some i) \/
       exists e, get_playback_info_call s = Raise e /\
                 playback_info_attr s = Ok (Some i)) /\
      playback_status i = Ok (Some v).
Proof.
  intros s v. exact (status_is_iff_status_reads s v).
Qed.

(** X2. When [session.get_playback_info()] returns, be it [None], the
    [playback_info] attribute is never consulted: two sessions whose method
    returns the same thing get the same result, whatever their attributes
    hold. *)
Theorem X2_method_result_wins :
  forall s1 s2 : Session,
    get_playback_info_call s1 = get_playback_info_call s2 ->
    (forall e, get_playback_info_call s1 <> Raise e) ->
    get_playback_info s1 = get_playback_info s2.
Proof.
  intros s1 s2 Heq Hno. unfold get_playback_info. rewrite <- Heq.
  destruct (get_playback_info_call s1) as [r|e]; [reflexivity|].
  destruct (Hno e eq_refl).
Qed.

Lemma X2_method_result_wins_witness :
  get_playback_info
    (answers_none "Spotify.exe"
       (Ok (Some (readable_info PlaybackStatus.PLAYING)))) =
  get_playback_info (answers_none "Spotify.exe" (Raise (Exception 1))) /\
  get_playback_info
    (answers_none "Spotify.exe"
       (Ok (Some (readable_info PlaybackStatus.PLAYING)))) =
  Ok (None, None).
Proof.
  split; [|reflexivity].
  apply (X2_method_result_wins
           (answers_none "Spotify.exe"
              (Ok (Some (readable_info PlaybackStatus.PLAYING))))
           (answers_none "Spotify.exe" (Raise (Exception 1)))).
  - reflexivity.
  - intros e. simpl. discriminate.
Defined.

(** X3. On a snapshot in which every identity can be read,
    [any_browser_video_playing] does not depend on the order of the
    sessions: a reordered session list gives the same answer. *)
Theorem X3_video_active_order_independent :
  forall l1 l2 : list Session,
    Forall aumid_readable l1 ->
    Permutation l1 l2 ->
    any_browser_video_playing l1 = any_browser_video_playing l2.
Proof.
  intros l1 l2 Hread1 Hperm.
  assert (Hread2 : Forall aumid_readable l2).
  { rewrite Forall_forall in *. intros s Hs. apply Hread1.
    now apply (Permutation_in _ (Permutation_sym Hperm)). }
  destruct (any_browser_video_playing_total l1 Hread1) as (b1 & H1).
  destruct (any_browser_video_playing_total l2 Hread2) as (b2 & H2).
  rewrite H1, H2. f_equal.
  assert (Hiff : b1 = true <-> b2 = true).
  { split; intros ->.
    - apply (any_browser_video_playing_true_iff l1 Hread1) in H1.
      destruct H1 as (s & Hin & Hs).
      assert (H : any_browser_video_playing l2 = Ok true).
      { apply (any_browser_video_playing_true_iff l2 Hread2).
        exists s. split; auto. now apply (Permutation_in _ Hperm). }
      congruence.
    - apply (any_browser_video_playing_true_iff l2 Hread2) in H2.
      destruct H2 as (s & Hin & Hs).
      assert (H : any_browser_video_playing l1 = Ok true).
      { apply (any_browser_video_playing_true_iff l1 Hread1).
        exists s. split; auto.
        now apply (Permutation_in _ (Permutation_sym Hperm)). }
      congruence. }
  destruct b1, b2; auto; destruct Hiff as [Ha Hb];
    [now rewrite Ha | now rewrite Hb].
Qed.

Lemma X3_video_active_order_independent_witness :
  any_browser_video_playing
    [responsive "Spotify.exe" PlaybackStatus.PAUSED;
     responsive "Chrome" PlaybackStatus.PLAYING] =
  any_browser_video_playing
    [responsive "Chrome" PlaybackStatus.PLAYING;
     responsive "Spotify.exe" PlaybackStatus.PAUSED].
Proof.
  apply X3_video_active_order_independent.
  - repeat constructor; intros e H; discriminate H.
  - apply perm_swap.
Defined.

Lemma str_in_trans (k1 k2 s : string) :
  str_in k1 k2 = true -> str_in k2 s = true -> str_in k1 s = true.
Proof.
  rewrite !str_in_iff.
  intros (a & b & ->) (c & d & ->).
  exists (c ++ a)%string, (b ++ d)%string.
  assert (Hassoc : forall x y z : string,
             ((x ++ y) ++ z = x ++ (y ++ z))%string).
  { intros x y z. induction x as [|ch x IH]; simpl;
      [reflexivity | now rewrite IH]. }
  now rewrite !Hassoc.
Qed.

(** X4. The keywords "msedge" and "msedgewebview" add nothing to
    [BROWSER_AUMID_KEYWORDS]: every AUMID they match is matched by "edge",
    so [is_browser_session] is decided by the seven other keywords. *)
Theorem X4_edge_keyword_subsumes_msedge :
  forall aumid : option string,
    is_browser_session aumid =
    existsb (fun k => str_in k (lower (or_empty aumid)))
      ["chrome"; "edge"; "firefox"; "brave"; "opera"; "vivaldi";
       "webview2"]%string.
Proof.
  intros aumid. unfold is_browser_session, BROWSER_AUMID_KEYWORDS.
  cbn [existsb].
  pose proof (str_in_trans "edge" "msedge" (lower (or_empty aumid))
                eq_refl) as H1.
  pose proof (str_in_trans "edge" "msedgewebview" (lower (or_empty aumid))
                eq_refl) as H2.
  destruct (str_in "msedge" _); destruct (str_in "msedgewebview" _);
    destruct (str_in "edge" _);
    try (discriminate (H1 eq_refl)); try (discriminate (H2 eq_refl));
    destruct (str_in "chrome" _); destruct (str_in "firefox" _);
    destruct (str_in "brave" _); destruct (str_in "opera" _);
    destruct (str_in "vivaldi" _); destruct (str_in "webview2" _);
    reflexivity.
Qed.

(** * Further properties of the executor *)

Lemma try_spotify_once (a : Action) (s : Session) (w : World) (answer : bool) :
  method_of a s (length (events w) + 1) = Ok (Ok answer) ->
  try_spotify a (Some s) w =
    (Ok true, extend w [Request a (Some s); Invoke a s]).
Proof.
  intros H.
  unfold try_spotify, Eff.bind, Eff.try_except. rewrite emit_run.
  rewrite call_method_run. cbn [events extend]. rewrite length_app.
  cbn [length]. rewrite H. unfold await, Eff.lift, Eff.ret.
  now rewrite extend_extend.
Qed.

Lemma try_spotify_twice (a : Action) (s : Session) (w : World) :
  (forall answer, method_of a s (length (events w) + 1) <> Ok (Ok answer)) ->
  try_spotify a (Some s) w =
    (Ok match method_of a s (length (events w) + 2) with
        | Ok _ => true
        | Raise _ => false
        end,
     extend w [Request a (Some s); Invoke a s; Invoke a s]).
Proof.
  intros Hfirst.
  assert (Hsecond :
    forall w1, w1 = extend w [Request a (Some s); Invoke a s] ->
    (let (o, w') := call_method a s w1 in
     match o with
     | Ok _ => (Ok true, w')
     | Raise _ => (Ok false, w')
     end) =
    (Ok match method_of a s (length (events w) + 2) with
        | Ok _ => true
        | Raise _ => false
        end,
     extend w [Request a (Some s); Invoke a s; Invoke a s])).
  { intros w1 ->. rewrite call_method_run, extend_extend.
    cbn [events extend app]. rewrite length_app. cbn [length].
    destruct (method_of a s (length (events w) + 2)); reflexivity. }
  unfold try_spotify, Eff.bind, Eff.try_except. rewrite emit_run.
  rewrite call_method_run. cbn [events extend]. rewrite length_app.
  cbn [length]. rewrite extend_extend. cbn [app].
  destruct (method_of a s (length (events w) + 1)) as [[answer|e]|e].
  - destruct (Hfirst answer eq_refl).
  - unfold await, Eff.lift, Eff.ret.
    rewrite <- (Hsecond _ eq_refl).
    destruct (call_method a s _) as [[?|?] ?]; reflexivity.
  - unfold Eff.ret.
    rewrite <- (Hsecond _ eq_refl).
    destruct (call_method a s _) as [[?|?] ?]; reflexivity.
Qed.

(** X5. When the platform method returns and awaiting it gives an answer,
    the request answers [True] after that single call, even when the
    platform's own answer is [False]: the awaited value is dropped. *)
Theorem X5_request_true_whatever_platform_answers :
  forall (a : Action) (s : Session) (w : World) (answer : bool),
    method_of a s (length (events w) + 1) = Ok (Ok answer) ->
    try_spotify a (Some s) w =
      (Ok true, extend w [Request a (Some s); Invoke a s]).
Proof.
  intros a s w answer H. exact (try_spotify_once a s w answer H).
Qed.

Lemma X5_request_true_whatever_platform_answers_witness :
  try_spotify Pause (Some (refusing "Spotify.exe" PlaybackStatus.PLAYING))
    start_world =
  (Ok true,
   extend start_world
     [Request Pause (Some (refusing "Spotify.exe" PlaybackStatus.PLAYING));
      Invoke Pause (refusing "Spotify.exe" PlaybackStatus.PLAYING)]).
Proof.
  apply (X5_request_true_whatever_platform_answers
           Pause (refusing "Spotify.exe" PlaybackStatus.PLAYING)
           start_world false).
  reflexivity.
Defined.

(** X6. A request on a session calls the platform method once when the
    first attempt (call and await) succeeds, and otherwise calls it a
    second time without awaiting it.  The request answers [False] exactly
    when the first attempt failed and the second call raised; in
    particular a command whose await raises after the call went through is
    sent twice and reported as done. *)
Theorem X6_request_retries_once :
  forall (a : Action) (s : Session) (w : World),
    exists b calls,
      try_spotify a (Some s) w =
        (Ok b, extend w (Request a (Some s) :: calls)) /\
      (calls = [Invoke a s] <->
       exists answer, method_of a s (length (events w) + 1) = Ok (Ok answer)) /\
      (calls = [Invoke a s; Invoke a s] <->
       forall answer,
         method_of a s (length (events w) + 1) <> Ok (Ok answer)) /\
      (b = false <->
       (forall answer,
          method_of a s (length (events w) + 1) <> Ok (Ok answer)) /\
       exists e, method_of a s (length (events w) + 2) = Raise e).
Proof.
  intros a s w.
  destruct (method_of a s (length (events w) + 1)) as [[answer|e]|e] eqn:Hfirst.
  - exists true, [Invoke a s]. split.
    + exact (try_spotify_once a s w answer Hfirst).
    + repeat split; eauto; try discriminate.
      * intros H. destruct (H answer eq_refl).
      * intros [H _]. destruct (H answer eq_refl).
  - eexists. exists [Invoke a s; Invoke a s].
    split; [apply try_spotify_twice; rewrite Hfirst; discriminate|].
    repeat split; try discriminate.
    + intros (answer & H). discriminate.
    + destruct (method_of a s (length (events w) + 2));
        [discriminate | eauto].
    + intros (_ & e' & ->). reflexivity.
  - eexists. exists [Invoke a s; Invoke a s].
    split; [apply try_spotify_twice; rewrite Hfirst; discriminate|].
    repeat split; try discriminate.
    + intros (answer & H). discriminate.
    + destruct (method_of a s (length (events w) + 2));
        [discriminate | eauto].
    + intros (_ & e' & ->). reflexivity.
Qed.

Example not_awaitable_command_is_sent_twice :
  let spotify := not_awaitable "Spotify.exe" PlaybackStatus.PLAYING in
  try_spotify_pause (Some spotify) start_world =
  (Ok true,
   extend start_world
     [Request Pause (Some spotify); Invoke Pause spotify;
      Invoke Pause spotify]).
Proof.
  reflexivity.
Qed.

(** * Further properties of one cycle *)

Section CycleEvents.

Lemma prints_of_app (a b : list Event) :
  prints_of (a ++ b) = prints_of a ++ prints_of b.
Proof.
  unfold prints_of. now rewrite flat_map_app.
Qed.

(** What a request leaves in the log concerns its session only, and is no
    console line. *)
Lemma try_spotify_events (a : Action) (s : option Session) (w : World) :
  exists b evs,
    try_spotify a s w = (Ok b, extend w evs) /\
    Forall (aimed_at s) evs /\ prints_of evs = [] /\ requests_of evs = [a].
Proof.
  destruct (try_spotify_run a s w) as (b & calls & Hrun & Hreq & Hsome & Hnone).
  exists b, (Request a s :: calls). split; [exact Hrun|].
  destruct s as [x|].
  - destruct (Hsome x eq_refl) as [-> | ->]; repeat constructor.
  - destruct (Hnone eq_refl) as (_ & ->). repeat constructor.
Qed.

Lemma on_change_events (st : LoopState) (bp : bool) (ss : option Session)
    (sp : option bool) (w : World) :
  exists evs,
    on_change st bp ss sp w = (Ok tt, extend w evs) /\
    Forall (aimed_at ss) evs /\
    (browser_changed (last_browser_playing st) bp = false -> evs = []) /\
    (edge_requests (last_browser_playing st) bp sp = [] ->
     invokes_of evs = []).
Proof.
  unfold on_change, edge_requests.
  destruct (browser_changed (last_browser_playing st) bp).
  2:{ exists []. rewrite extend_nil. repeat split; auto. }
  unfold Eff.bind, Eff.print. rewrite emit_run.
  assert (Hreq : forall a,
    exists evs,
      (let (o, w') := try_spotify a ss (extend w [Print (LogBrowserNow bp)]) in
       match o with
       | Ok ok =>
           (if ok
            then Eff.emit (Print match a with Pause => LogPaused
                                            | Play => LogPlayed end)
            else Eff.ret tt) w'
       | Raise e => (Raise e, w')
       end) = (Ok tt, extend w evs) /\
      Forall (aimed_at ss) evs).
  { intros a.
    destruct (try_spotify_events a ss (extend w [Print (LogBrowserNow bp)]))
      as (b & evs & -> & Haim & _).
    destruct b.
    - rewrite emit_run, !extend_extend. eexists. split; [reflexivity|].
      constructor; [exact I|]. apply Forall_app. split; [exact Haim|].
      repeat constructor.
    - unfold Eff.ret. rewrite extend_extend. eexists.
      split; [reflexivity|]. constructor; [exact I | exact Haim]. }
  destruct bp.
  - destruct (is_not_False sp).
    + destruct (Hreq Pause) as (evs & Hrun & Haim). exists evs.
      repeat split; auto; discriminate.
    + exists [Print (LogBrowserNow true)].
      repeat split; auto; try discriminate. repeat constructor.
  - destruct (is_not_True sp).
    + destruct (Hreq Play) as (evs & Hrun & Haim). exists evs.
      repeat split; auto; discriminate.
    + exists [Print (LogBrowserNow false)].
      repeat split; auto; try discriminate. repeat constructor.
Qed.

Lemma reconcile_gently_events (bp : bool) (ss : option Session)
    (sp : option bool) (w : World) :
  exists evs,
    reconcile_gently bp ss sp w = (Ok tt, extend w evs) /\
    Forall (aimed_at ss) evs /\ prints_of evs = [] /\
    requests_of evs = level_requests bp sp /\
    (level_requests bp sp = [] -> evs = []).
Proof.
  unfold reconcile_gently, level_requests.
  assert (Hreq : forall a,
    exists evs,
      (try_spotify a ss ;;; Eff.ret tt) w = (Ok tt, extend w evs) /\
      Forall (aimed_at ss) evs /\ prints_of evs = [] /\
      requests_of evs = [a]).
  { intros a. unfold Eff.bind.
    destruct (try_spotify_events a ss w) as (b & evs & -> & H).
    exists evs. split; [reflexivity | exact H]. }
  destruct (bp && truthy sp).
  { destruct (Hreq Pause) as (evs & H1 & H2 & H3 & H4). exists evs.
    repeat split; auto. discriminate. }
  destruct (negb bp && is_False sp).
  { destruct (Hreq Play) as (evs & H1 & H2 & H3 & H4). exists evs.
    repeat split; auto. discriminate. }
  exists []. rewrite extend_nil. repeat split; auto.
Qed.

End CycleEvents.

Section CycleLines.

Lemma no_print_cycle_events (evs : list Event) :
  prints_of evs = [] -> Forall cycle_event evs.
Proof.
  induction evs as [|e evs IH]; [constructor|].
  destruct e as [a s|a s|l]; simpl; try discriminate;
    intros H; constructor; auto; exact I.
Qed.

Lemma on_change_cycle_events (st : LoopState) (bp : bool)
    (ss : option Session) (sp : option bool) (w : World) :
  exists evs,
    on_change st bp ss sp w = (Ok tt, extend w evs) /\
    Forall cycle_event evs.
Proof.
  unfold on_change.
  destruct (browser_changed (last_browser_playing st) bp).
  2:{ exists []. rewrite extend_nil. auto. }
  unfold Eff.bind, Eff.print. rewrite emit_run.
  assert (Hreq : forall a,
    exists evs,
      (let (o, w') := try_spotify a ss (extend w [Print (LogBrowserNow bp)]) in
       match o with
       | Ok ok =>
           (if ok
            then Eff.emit (Print match a with Pause => LogPaused
                                            | Play => LogPlayed end)
            else Eff.ret tt) w'
       | Raise e => (Raise e, w')
       end) = (Ok tt, extend w evs) /\
      Forall cycle_event evs).
  { intros a.
    destruct (try_spotify_events a ss (extend w [Print (LogBrowserNow bp)]))
      as (b & evs & -> & _ & Hp & _).
    apply no_print_cycle_events in Hp.
    destruct b.
    - rewrite emit_run, !extend_extend. eexists. split; [reflexivity|].
      constructor; [exact I|]. apply Forall_app. split; [exact Hp|].
      destruct a; repeat constructor.
    - unfold Eff.ret. rewrite extend_extend. eexists.
      split; [reflexivity|]. constructor; [exact I | exact Hp]. }
  destruct bp.
  - destruct (is_not_False sp); [exact (Hreq Pause)|].
    exists [Print (LogBrowserNow true)]. split; [reflexivity|].
    repeat constructor.
  - destruct (is_not_True sp); [exact (Hreq Play)|].
    exists [Print (LogBrowserNow false)]. split; [reflexivity|].
    repeat constructor.
Qed.

Lemma reconcile_cycle_events (st st' : LoopState) (sessions : list Session)
    (w w' : World) :
  reconcile st sessions w = (Ok st', w') ->
  exists evs, w' = extend w evs /\ Forall cycle_event evs.
Proof.
  unfold reconcile, Eff.bind, Eff.lift.
  destruct (classify sessions) as [[[bp ss] sp]|e]; [|discriminate].
  destruct (on_change_cycle_events st bp ss sp w) as (e1 & -> & H1).
  destruct (reconcile_gently_events bp ss sp (extend w e1))
    as (e2 & -> & _ & Hp & _).
  unfold Eff.ret. rewrite extend_extend. intros H. injection H as _ <-.
  exists (e1 ++ e2). split; [reflexivity|].
  apply Forall_app. split; [exact H1 | now apply no_print_cycle_events].
Qed.

Lemma loop_body_cycle_events (mgr : Mgr) (st st' : LoopState) (w w' : World) :
  loop_body mgr st w = (Ok st', w') ->
  exists evs,
    w' = {| now := now w + POLL_INTERVAL; events := events w ++ evs |} /\
    Forall cycle_event evs.
Proof.
  unfold loop_body, Eff.bind. rewrite list_sessions_run.
  destruct (reconcile st (snapshot mgr w) w) as [[st1|e] w1] eqn:Hrec;
    [|discriminate].
  destruct (reconcile_cycle_events _ _ _ _ _ Hrec) as (evs & -> & Hevs).
  unfold Eff.sleep, Eff.ret. intros H. injection H as _ <-.
  exists evs. split; [reflexivity | exact Hevs].
Qed.

End CycleLines.

(** X7. A cycle whose classification raises stops there, having printed,
    requested and called nothing.  Otherwise the cycle completes, and its
    requests never contradict what it saw of the browser: each is a pause
    when browser media plays and a play when it does not, so no cycle
    requests both; and a cycle makes at most two. *)
Theorem X7_requests_follow_browser_state :
  forall (st : LoopState) (sessions : list Session) (w : World),
    match classify sessions with
    | Ok (browser_playing, _, _) =>
        exists st' evs,
          reconcile st sessions w = (Ok st', extend w evs) /\
          Forall (fun a => a = if browser_playing then Pause else Play)
                 (requests_of evs) /\
          length (requests_of evs) <= 2
    | Raise e => reconcile st sessions w = (Raise e, w)
    end.
Proof.
  intros st sessions w.
  destruct (classify sessions) as [[[bp ss] sp]|e] eqn:Hc.
  - destruct (reconcile_run st sessions w bp ss sp Hc) as (evs & Hrun & Hreq & _).
    eexists. exists evs. split; [exact Hrun|].
    rewrite Hreq. unfold edge_requests, level_requests.
    destruct (browser_changed _ bp), bp, sp as [[|]|]; simpl;
      split; repeat constructor.
  - exact (reconcile_raises st sessions w e Hc).
Qed.

(** X8. When the player is known to be in the state the browser calls for
    (browser playing and player not playing, or browser silent and player
    playing), the cycle requests nothing and calls no platform method,
    whatever the previous state: all it may do is print the change of the
    browser state. *)
Theorem X8_satisfied_cycle_does_nothing :
  forall (st : LoopState) (sessions : list Session) (w : World)
         (browser_playing : bool),
    any_browser_video_playing sessions = Ok browser_playing ->
    Err.seq (pick_spotify_session sessions) get_spotify_playing =
      Ok (Some (negb browser_playing)) ->
    reconcile st sessions w =
      (Ok {| last_browser_playing := Some browser_playing;
             last_spotify_playing := Some (negb browser_playing) |},
       extend w
         (if browser_changed (last_browser_playing st) browser_playing
          then [Print (LogBrowserNow browser_playing)] else [])).
Proof.
  intros st sessions w bp Hb Hsp.
  unfold reconcile, Eff.bind, Eff.lift, classify.
  rewrite Hb. simpl.
  destruct (pick_spotify_session sessions) as [ss|e]; simpl in *;
    [|discriminate].
  rewrite Hsp. simpl.
  unfold on_change, reconcile_gently.
  destruct (browser_changed (last_browser_playing st) bp), bp; simpl;
    unfold Eff.bind, Eff.print, Eff.ret; try rewrite emit_run;
    try rewrite extend_nil; reflexivity.
Qed.

Lemma X8_satisfied_cycle_does_nothing_witness :
  let sessions := [responsive "Chrome" PlaybackStatus.PLAYING;
                   responsive "Spotify.exe" PlaybackStatus.PAUSED] in
  reconcile initial_state sessions start_world =
    (Ok {| last_browser_playing := Some true;
           last_spotify_playing := Some (negb true) |},
     extend start_world
       (if browser_changed (last_browser_playing initial_state) true
        then [Print (LogBrowserNow true)] else [])).
Proof.
  apply (X8_satisfied_cycle_does_nothing
           initial_state
           [responsive "Chrome" PlaybackStatus.PLAYING;
            responsive "Spotify.exe" PlaybackStatus.PAUSED]
           start_world true); reflexivity.
Defined.


(** X10. A cycle that completes leaves a state that a second cycle on the
    same snapshot leaves unchanged; that second cycle prints nothing and
    makes only the request of the every-cycle block: a pause when browser
    and player both play, a play when the browser is silent and the player
    is known not to play, and none otherwise. *)
Theorem X10_repeated_snapshot_reaches_steady_state :
  forall (st st1 : LoopState) (sessions : list Session) (w w1 : World),
    reconcile st sessions w = (Ok st1, w1) ->
    exists browser_playing spotify_session spotify_playing evs,
      classify sessions =
        Ok (browser_playing, spotify_session, spotify_playing) /\
      reconcile st1 sessions w1 = (Ok st1, extend w1 evs) /\
      prints_of evs = [] /\
      requests_of evs = level_requests browser_playing spotify_playing /\
      (level_requests browser_playing spotify_playing = [] -> evs = []).
Proof.
  intros st st1 sessions w w1 Hfirst.
  destruct (classify sessions) as [[[bp ss] sp]|e] eqn:Hc.
  2:{ rewrite (reconcile_raises st sessions w e Hc) in Hfirst. discriminate. }
  destruct (reconcile_run st sessions w bp ss sp Hc) as (evs1 & Hrun & _).
  rewrite Hrun in Hfirst. injection Hfirst as <- <-.
  exists bp, ss, sp.
  unfold reconcile, Eff.bind, Eff.lift. rewrite Hc.
  destruct (on_change_events
              {| last_browser_playing := Some bp;
                 last_spotify_playing := sp |}
              bp ss sp (extend w evs1))
    as (e1 & -> & _ & Hnil & _).
  rewrite Hnil by (simpl; now destruct bp).
  rewrite extend_nil.
  destruct (reconcile_gently_events bp ss sp (extend w evs1))
    as (e2 & -> & _ & Hp & Hr & Hn).
  exists e2. unfold Eff.ret. auto.
Qed.

Lemma X10_repeated_snapshot_reaches_steady_state_witness :
  let sessions := [responsive "Chrome" PlaybackStatus.PLAYING;
                   unresponsive "Spotify.exe" PlaybackStatus.PLAYING] in
  let st1 := {| last_browser_playing := Some true;
                last_spotify_playing := Some true |} in
  let w1 := snd (reconcile initial_state sessions start_world) in
  exists browser_playing spotify_session spotify_playing evs,
    classify sessions =
      Ok (browser_playing, spotify_session, spotify_playing) /\
    reconcile st1 sessions w1 = (Ok st1, extend w1 evs) /\
    prints_of evs = [] /\
    requests_of evs = level_requests browser_playing spotify_playing /\
    (level_requests browser_playing spotify_playing = [] -> evs = []).
Proof.
  apply (X10_repeated_snapshot_reaches_steady_state
           initial_state
           {| last_browser_playing := Some true;
              last_spotify_playing := Some true |}
           [responsive "Chrome" PlaybackStatus.PLAYING;
            unresponsive "Spotify.exe" PlaybackStatus.PLAYING]
           start_world).
  reflexivity.
Defined.

(** X11. [last_spotify_playing] is written at the end of every cycle and
    never read: a cycle does the same from two states that agree on
    [last_browser_playing]. *)
Theorem X11_previous_player_state_is_never_read :
  forall (st1 st2 : LoopState) (sessions : list Session) (w : World),
    last_browser_playing st1 = last_browser_playing st2 ->
    reconcile st1 sessions w = reconcile st2 sessions w.
Proof.
  intros st1 st2 sessions w H.
  unfold reconcile, on_change. now rewrite H.
Qed.

Lemma X11_previous_player_state_is_never_read_witness :
  let sessions := [responsive "Chrome" PlaybackStatus.PLAYING;
                   responsive "Spotify.exe" PlaybackStatus.PLAYING] in
  reconcile {| last_browser_playing := Some true;
               last_spotify_playing := Some false |} sessions start_world =
  reconcile {| last_browser_playing := Some true;
               last_spotify_playing := None |} sessions start_world.
Proof.
  apply (X11_previous_player_state_is_never_read
           {| last_browser_playing := Some true;
              last_spotify_playing := Some false |}
           {| last_browser_playing := Some true;
              last_spotify_playing := None |}).
  reflexivity.
Defined.

(** * Further properties of the loop *)

Section LoopRuns.

Variable mgr : Mgr.

Lemma cycle_top_shift (t k : nat) :
  t + POLL_INTERVAL + k * POLL_INTERVAL = t + S k * POLL_INTERVAL.
Proof. lia. Qed.

Lemma world_unchanged (w : World) :
  {| now := now w + 0 * POLL_INTERVAL; events := events w ++ [] |} = w.
Proof.
  destruct w as [t evs]. cbn [now events].
  rewrite app_nil_r. f_equal. lia.
Qed.

Lemma monitor_while_same_samples (fuel : nat) :
  forall (ev1 ev2 : ThreadingEvent) (st : LoopState) (w : World),
    (forall k, k < fuel ->
       is_set ev1 (now w + k * POLL_INTERVAL) =
       is_set ev2 (now w + k * POLL_INTERVAL)) ->
    monitor_while fuel ev1 mgr st w = monitor_while fuel ev2 mgr st w.
Proof.
  induction fuel as [|fuel IH]; intros ev1 ev2 st w Hsame; [reflexivity|].
  rewrite !monitor_while_unfold.
  pose proof (Hsame 0 ltac:(lia)) as H0.
  replace (now w + 0 * POLL_INTERVAL) with (now w) in H0 by lia.
  rewrite H0. destruct (is_set ev2 (now w)); [reflexivity|].
  destruct (classify (snapshot mgr w)) as [c|e] eqn:Hc.
  - destruct (loop_body_classified mgr st w c Hc) as (st' & e1 & ->).
    apply IH. intros k Hk. cbn [now]. rewrite cycle_top_shift.
    apply Hsame. lia.
  - now rewrite (loop_body_raises mgr st w e Hc).
Qed.

Hypothesis mgr_well_read : well_read mgr.

(** With identities that can be read, the loop does not raise, whatever
    the signal does, and it is left (or the fuel runs out) at the top of a
    cycle. *)
Lemma monitor_while_runs (stop_event : ThreadingEvent) (fuel : nat) :
  forall (st : LoopState) (w : World),
    exists r cycles evs,
      monitor_while fuel stop_event mgr st w =
        (Ok r, {| now := now w + cycles * POLL_INTERVAL;
                  events := events w ++ evs |}) /\
      cycles <= fuel.
Proof.
  induction fuel as [|fuel IH]; intros st w.
  - exists None, 0, []. rewrite world_unchanged. split; [reflexivity | lia].
  - rewrite monitor_while_unfold.
    destruct (is_set stop_event (now w)).
    + exists (Some st), 0, []. rewrite world_unchanged.
      split; [reflexivity | lia].
    + destruct (loop_body_run mgr mgr_well_read st w) as (st' & e1 & ->).
      destruct (IH st' {| now := now w + POLL_INTERVAL;
                          events := events w ++ e1 |})
        as (r & c & e2 & -> & Hc).
      exists r, (S c), (e1 ++ e2). cbn [now events].
      rewrite cycle_top_shift, app_assoc. split; [reflexivity | lia].
Qed.

Lemma monitor_while_unset (stop_event : ThreadingEvent) (fuel : nat) :
  forall (st : LoopState) (w : World),
    (forall k, k < fuel ->
       is_set stop_event (now w + k * POLL_INTERVAL) = false) ->
    exists evs,
      monitor_while fuel stop_event mgr st w =
        (Ok None, {| now := now w + fuel * POLL_INTERVAL;
                     events := events w ++ evs |}) /\
      Forall cycle_event evs.
Proof.
  induction fuel as [|fuel IH]; intros st w Hunset.
  - exists []. rewrite world_unchanged. split; [reflexivity | constructor].
  - rewrite monitor_while_unfold.
    pose proof (Hunset 0 ltac:(lia)) as H0.
    replace (now w + 0 * POLL_INTERVAL) with (now w) in H0 by lia.
    rewrite H0.
    destruct (loop_body_run mgr mgr_well_read st w) as (st' & e1 & Hbody).
    destruct (loop_body_cycle_events mgr st st' w _ Hbody)
      as (e1' & Hw & He1).
    rewrite Hbody, Hw.
    destruct (IH st' {| now := now w + POLL_INTERVAL;
                        events := events w ++ e1' |}) as (e2 & -> & He2).
    + intros k Hk. cbn [now]. rewrite cycle_top_shift. apply Hunset. lia.
    + exists (e1' ++ e2). cbn [now events].
      rewrite cycle_top_shift, app_assoc. split; [reflexivity|].
      apply Forall_app. now split.
Qed.

End LoopRuns.

(** X12. The signal is read at the tops of cycles and nowhere else: two
    signals that agree at the times [now + k * POLL_INTERVAL] give the same
    run of [monitor_loop], however they differ in between. *)
Theorem X12_signal_read_at_cycle_tops_only :
  forall (fuel : nat) (request_manager : outcome Mgr)
         (ev1 ev2 : ThreadingEvent) (w : World),
    (forall k, k < fuel ->
       is_set ev1 (now w + k * POLL_INTERVAL) =
       is_set ev2 (now w + k * POLL_INTERVAL)) ->
    monitor_loop fuel request_manager ev1 w =
    monitor_loop fuel request_manager ev2 w.
Proof.
  intros fuel rm ev1 ev2 w Hsame.
  unfold monitor_loop, Eff.bind, Eff.lift.
  destruct rm as [mgr|e]; [|reflexivity].
  unfold Eff.print. rewrite emit_run.
  now rewrite (monitor_while_same_samples mgr fuel ev1 ev2).
Qed.

Lemma X12_signal_read_at_cycle_tops_only_witness :
  monitor_loop 3 (Ok quiet_mgr) (set_at 501) start_world =
  monitor_loop 3 (Ok quiet_mgr) (set_at 1000) start_world.
Proof.
  apply (X12_signal_read_at_cycle_tops_only
           3 (Ok quiet_mgr) (set_at 501) (set_at 1000) start_world).
  intros k Hk.
  destruct k as [|[|[|k]]]; [reflexivity | reflexivity | reflexivity | lia].
Defined.

(** X13. With identities that can be read, the loop has no exit of its
    own: as long as the signal reads as unset at the top of every cycle,
    [monitor_loop] has not returned, however many cycles it is given; after
    [fuel] cycles the clock stands at [fuel * POLL_INTERVAL] past the start
    and "Stop signal received" has not been printed. *)
Theorem X13_loop_runs_until_signalled :
  forall (fuel : nat) (mgr : Mgr) (stop_event : ThreadingEvent) (w : World),
    well_read mgr ->
    (forall k, k < fuel ->
       is_set stop_event (now w + k * POLL_INTERVAL) = false) ->
    exists evs,
      monitor_loop fuel (Ok mgr) stop_event w =
        (Ok None,
         {| now := now w + fuel * POLL_INTERVAL;
            events := events w ++ Print LogStarted :: evs |}) /\
      ~ In (Print LogStopSignal) evs.
Proof.
  intros fuel mgr stop_event w Hread Hunset.
  unfold monitor_loop, Eff.bind, Eff.lift, Eff.print. rewrite emit_run.
  destruct (monitor_while_unset mgr Hread stop_event fuel initial_state
              (extend w [Print LogStarted]) Hunset) as (evs & -> & Hevs).
  exists evs. unfold Eff.ret. cbn [now events extend].
  rewrite <- app_assoc. split; [reflexivity|].
  intros Hin. rewrite Forall_forall in Hevs. exact (Hevs _ Hin).
Qed.

Lemma X13_loop_runs_until_signalled_witness :
  exists evs,
    monitor_loop 4 (Ok quiet_mgr) (set_at 2000) start_world =
      (Ok None,
       {| now := now start_world + 4 * POLL_INTERVAL;
          events := events start_world ++ Print LogStarted :: evs |}) /\
    ~ In (Print LogStopSignal) evs.
Proof.
  apply (X13_loop_runs_until_signalled 4 quiet_mgr (set_at 2000) start_world).
  - intros t sessions H. injection H as <-. constructor.
  - intros k Hk.
    destruct k as [|[|[|[|k]]]]; [reflexivity .. | lia].
Defined.

(** X14. [monitor_loop] raises what [request_manager] raises, and then it
    has printed and done nothing.  Once the manager is obtained, and as
    long as the identities of the sessions it reports can be read,
    [monitor_loop] never raises, and it stops only at the top of a cycle, a
    whole number of poll intervals after it started. *)
Theorem X14_only_the_startup_can_fail :
  forall (fuel : nat) (request_manager : outcome Mgr)
         (stop_event : ThreadingEvent) (w : World),
    match request_manager with
    | Raise e => monitor_loop fuel request_manager stop_event w = (Raise e, w)
    | Ok mgr =>
        well_read mgr ->
        exists r cycles evs,
          monitor_loop fuel request_manager stop_event w =
            (Ok r, {| now := now w + cycles * POLL_INTERVAL;
                      events := events w ++ Print LogStarted :: evs |}) /\
          cycles <= fuel
    end.
Proof.
  intros fuel rm stop_event w. destruct rm as [mgr|e]; [|reflexivity].
  intros Hread.
  unfold monitor_loop, Eff.bind, Eff.lift, Eff.print. rewrite emit_run.
  destruct (monitor_while_runs mgr Hread stop_event fuel initial_state
              (extend w [Print LogStarted])) as (r & c & evs & -> & Hc).
  cbn [now events extend]. rewrite <- app_assoc. cbn [app].
  destruct r as [st|].
  - rewrite emit_run. unfold Eff.ret, extend. cbn [now events].
    exists (Some tt), c, (evs ++ [Print LogStopSignal]).
    split; [|exact Hc]. now rewrite <- app_assoc.
  - exists None, c, evs. split; [reflexivity | exact Hc].
Qed.

Lemma X14_only_the_startup_can_fail_witness :
  exists r cycles evs,
    monitor_loop 3 (Ok quiet_mgr) (set_at 501) start_world =
      (Ok r, {| now := now start_world + cycles * POLL_INTERVAL;
                events := events start_world ++ Print LogStarted :: evs |}) /\
    cycles <= 3.
Proof.
  apply (X14_only_the_startup_can_fail
           3 (Ok quiet_mgr) (set_at 501) start_world).
  intros t sessions H. injection H as <-. constructor.
Defined.

(** X15. When the signal is already set as [monitor_loop] reaches its
    loop, no cycle runs: nothing is requested, no platform method is
    called, no time passes, and the log holds the two lines "Started" and
    "Stop signal received" and nothing else. *)
Theorem X15_signal_set_before_the_first_cycle :
  forall (fuel : nat) (mgr : Mgr) (stop_event : ThreadingEvent) (w : World),
    is_set stop_event (now w) = true ->
    monitor_loop (S fuel) (Ok mgr) stop_event w =
      (Ok (Some tt), extend w [Print LogStarted; Print LogStopSignal]).
Proof.
  intros fuel mgr stop_event w Hset.
  unfold monitor_loop, Eff.bind, Eff.lift, Eff.print. rewrite emit_run.
  rewrite monitor_while_unfold. cbn [now extend]. rewrite Hset.
  rewrite emit_run, extend_extend. reflexivity.
Qed.

Lemma X15_signal_set_before_the_first_cycle_witness :
  let mgr := {| get_sessions := fun _ =>
                  Ok [responsive "Chrome" PlaybackStatus.PLAYING;
                      responsive "Spotify.exe" PlaybackStatus.PLAYING] |} in
  monitor_loop 1 (Ok mgr) (set_at 0) start_world =
    (Ok (Some tt), extend start_world [Print LogStarted; Print LogStopSignal]).
Proof.
  apply (X15_signal_set_before_the_first_cycle
           0 {| get_sessions := fun _ =>
                  Ok [responsive "Chrome" PlaybackStatus.PLAYING;
                      responsive "Spotify.exe" PlaybackStatus.PLAYING] |}
           (set_at 0) start_world).
  reflexivity.
Defined.

(** X16. With identities that can be read, [monitor_loop] returns at the
    first top of a cycle at which the signal reads as set: if that is the
    top number [k], it returns after exactly [k] cycles,
    [k * POLL_INTERVAL] after its start, and its log opens with "Started"
    and closes with "Stop signal received". *)
Theorem X16_loop_returns_at_first_signalled_top :
  forall (k fuel : nat) (mgr : Mgr) (stop_event : ThreadingEvent) (w : World),
    well_read mgr ->
    k < fuel ->
    (forall j, j < k ->
       is_set stop_event (now w + j * POLL_INTERVAL) = false) ->
    is_set stop_event (now w + k * POLL_INTERVAL) = true ->
    exists evs,
      monitor_loop fuel (Ok mgr) stop_event w =
        (Ok (Some tt),
         {| now := now w + k * POLL_INTERVAL;
            events := events w ++
                      Print LogStarted :: evs ++ [Print LogStopSignal] |}).
Proof.
  intros k fuel mgr stop_event w Hread Hfuel Hbefore Hat.
  unfold monitor_loop, Eff.bind, Eff.lift, Eff.print. rewrite emit_run.
  destruct (monitor_while_exit stop_event mgr Hread k fuel initial_state
              (extend w [Print LogStarted]) Hfuel Hbefore Hat)
    as (st' & evs & ->).
  rewrite emit_run. unfold Eff.ret, extend. cbn [now events].
  exists evs. now rewrite <- !app_assoc.
Qed.

Lemma X16_loop_returns_at_first_signalled_top_witness :
  exists evs,
    monitor_loop 5 (Ok quiet_mgr) (set_at 700) start_world =
      (Ok (Some tt),
       {| now := now start_world + 2 * POLL_INTERVAL;
          events := events start_world ++
                    Print LogStarted :: evs ++ [Print LogStopSignal] |}).
Proof.
  apply (X16_loop_returns_at_first_signalled_top
           2 5 quiet_mgr (set_at 700) start_world).
  - intros t sessions H. injection H as <-. constructor.
  - lia.
  - intros j Hj. destruct j as [|[|j]]; [reflexivity | reflexivity | lia].
  - reflexivity.
Defined.

(** * Properties of [get_media_title] *)

(** X17. [get_media_title] lets exactly one kind of failure through: an
    exception other than [AttributeError] raised by
    [session.try_get_media_properties_async()], which it raises unchanged.
    Every other failure ends in a result. *)
Theorem X17_get_media_title_raises_iff :
  forall (session : TitledSession) (e : exn),
    get_media_title session = Raise e <->
    try_get_media_properties_async session = Raise e /\
    is_AttributeError e = false.
Proof.
  intros session e. unfold get_media_title, attempt_AttributeError.
  assert (Hrest : forall props_op : option (outcome MediaProperties),
            match props_op with
            | None => Err.pure None
            | Some op =>
                Err.attempt (Err.seq op (fun props => title props))
                  (Err.pure None)
            end <> Raise e).
  { intros [[props|e']|]; simpl; try discriminate.
    destruct (title props); discriminate. }
  destruct (try_get_media_properties_async session) as [op|e1]; simpl.
  - split; [intros H; destruct (Hrest _ H) | intros [H _]; discriminate].
  - destruct (is_AttributeError e1) eqn:Hattr; simpl.
    + split.
      * destruct (get_media_properties_async session) as [op|e2]; simpl;
          intros H; [destruct (Hrest _ H) | discriminate].
      * intros [H He]. injection H as ->. congruence.
    + split.
      * intros H. injection H as ->. auto.
      * intros [H _]. injection H as ->. reflexivity.
Qed.

(** X18. [get_media_title] returns the title [t] exactly when the
    properties object, obtained from
    [try_get_media_properties_async()], or from
    [get_media_properties_async()] when (and only when) the former raised
    [AttributeError], is awaited without error and its [title] is [t]. *)
Theorem X18_get_media_title_returns_title_iff :
  forall (session : TitledSession) (t : string),
    get_media_title session = Ok (Some t) <->
    exists props,
      (try_get_media_properties_async session = Ok (Some (Ok props)) \/
       exists e,
         try_get_media_properties_async session = Raise e /\
         is_AttributeError e = true /\
         get_media_properties_async session = Ok (Some (Ok props))) /\
      title props = Ok (Some t).
Proof.
  intros session t. unfold get_media_title, attempt_AttributeError.
  assert (Hrest : forall props_op : option (outcome MediaProperties),
            match props_op with
            | None => Err.pure None
            | Some op =>
                Err.attempt (Err.seq op (fun props => title props))
                  (Err.pure None)
            end = Ok (Some t) <->
            exists props,
              props_op = Some (Ok props) /\ title props = Ok (Some t)).
  { intros [[props|e']|]; simpl; unfold Err.pure.
    - destruct (title props) as [[x|]|e'] eqn:Ht; simpl; split;
        try discriminate.
      + intros H. injection H as ->. eauto.
      + intros (p & Hp & Hx). injection Hp as <-. congruence.
      + intros (p & Hp & Hx). injection Hp as <-. congruence.
      + intros (p & Hp & Hx). injection Hp as <-. congruence.
    - split; [discriminate | intros (p & Hp & _); discriminate].
    - split; [discriminate | intros (p & Hp & _); discriminate]. }
  destruct (try_get_media_properties_async session) as [op|e1]; simpl.
  - rewrite Hrest. split.
    + intros (p & -> & Hp). exists p. auto.
    + intros (p & [H | (e & H & _)] & Hp); [|discriminate].
      injection H as ->. eauto.
  - destruct (is_AttributeError e1) eqn:Hattr; simpl.
    + destruct (get_media_properties_async session) as [op|e2]; simpl.
      * rewrite Hrest. split.
        -- intros (p & -> & Hp). exists p. split; [right; eauto | exact Hp].
        -- intros (p & [H | (e & _ & _ & H)] & Hp); [discriminate|].
           injection H as ->. eauto.
      * unfold Err.pure. split; [discriminate|].
        intros (p & [H | (e & _ & _ & H)] & _); discriminate.
    + split; [discriminate|].
      intros (p & [H | (e & H & He & _)] & _); [discriminate|].
      injection H as ->. congruence.
Qed.

Example get_media_title_falls_back_on_AttributeError :
  get_media_title (titled "Song") = Ok (Some "Song"%string).
Proof.
  reflexivity.
Qed.

Example get_media_title_lets_other_errors_through :
  get_media_title
    {| try_get_media_properties_async := Raise (Exception 6);
       get_media_properties_async :=
         Ok (Some (Ok {| title := Ok (Some "Song"%string) |})) |} =
  Raise (Exception 6).
Proof.
  reflexivity.
Qed.

(** * Properties of the bootstrap *)

Lemma setup_hotkey_run (keyboard : option Keyboard) (log : list BootEvent) :
  setup_hotkey keyboard log =
  (Returns (registered keyboard), log ++ setup_events keyboard).
Proof.
  destruct keyboard as [kb|]; [|reflexivity].
  unfold setup_hotkey, registered, setup_events, Boot.catch_Exception,
    Boot.next, Boot.call, Boot.say, Boot.done.
  destruct (add_hotkey kb); simpl; now rewrite <- app_assoc.
Qed.

Lemma remove_hotkeys_run (keyboard : option Keyboard) (log : list BootEvent) :
  remove_hotkeys keyboard (registered keyboard) log =
  (Returns tt, log ++ cleanup_events keyboard).
Proof.
  unfold remove_hotkeys, cleanup_events.
  destruct keyboard as [kb|]; [|simpl; now rewrite app_nil_r].
  unfold Boot.catch_Exception, Boot.next, Boot.call, Boot.done.
  destruct (registered (Some kb)) as [h|].
  - destruct (remove_hotkey kb h) as [[]|e]; simpl.
    + destruct (unhook_all_hotkeys kb) as [[]|e]; now rewrite <- app_assoc.
    + reflexivity.
  - destruct (unhook_all_hotkeys kb) as [[]|e]; reflexivity.
Qed.

Lemma main_run (keyboard : option Keyboard) (asyncio_run : B unit)
    (log l1 : list BootEvent) (r : completion unit) :
  asyncio_run (log ++ setup_events keyboard) = (r, l1) ->
  main "win32" keyboard asyncio_run log =
  (main_ends r, l1 ++ interrupt_line r ++ cleanup_events keyboard).
Proof.
  intros Hrun. unfold main. cbn [String.eqb Ascii.eqb Bool.eqb negb].
  unfold Boot.next at 1. rewrite setup_hotkey_run.
  unfold Boot.finally, Boot.catch_KeyboardInterrupt. rewrite Hrun.
  destruct r as [[]|[e| |code]]; cbn [interrupt_line main_ends app];
    unfold Boot.say; rewrite remove_hotkeys_run;
    rewrite <- ?app_assoc; reflexivity.
Qed.

(** X19. On a platform other than "win32", [main] prints one line and
    leaves through [SystemExit(1)]: no hotkey is registered, the loop is
    never started and nothing is cleaned up. *)
Theorem X19_main_refuses_other_platforms :
  forall (platform : string) (keyboard : option Keyboard)
         (asyncio_run : B unit) (log : list BootEvent),
    platform <> "win32"%string ->
    main platform keyboard asyncio_run log =
      (Raises (SystemExit 1), log ++ [BootPrint LineNotWindows]).
Proof.
  intros platform keyboard asyncio_run log Hne.
  unfold main. apply String.eqb_neq in Hne. rewrite Hne. reflexivity.
Qed.

Lemma X19_main_refuses_other_platforms_witness :
  main "linux" (Some working_keyboard) interrupted_run [] =
    (Raises (SystemExit 1), [] ++ [BootPrint LineNotWindows]).
Proof.
  apply (X19_main_refuses_other_platforms
           "linux" (Some working_keyboard) interrupted_run []).
  discriminate.
Defined.

(** X20. On "win32", [main] ends the way [asyncio.run] ended, except that a
    [KeyboardInterrupt] is answered with one printed line and a normal
    return; a missing keyboard module, a failed registration of the hotkey
    and a failure while removing it never change how [main] ends. *)
Theorem X20_main_ends_as_the_loop_ended :
  forall (keyboard : option Keyboard) (asyncio_run : B unit)
         (log l1 : list BootEvent) (r : completion unit),
    asyncio_run (log ++ setup_events keyboard) = (r, l1) ->
    exists cleanup,
      main "win32" keyboard asyncio_run log =
        (match r with
         | Raises KeyboardInterrupt => Returns tt
         | other => other
         end,
         l1 ++ match r with
               | Raises KeyboardInterrupt => [BootPrint LineKeyboardInterrupt]
               | _ => []
               end ++ cleanup) /\
      forall e, In e cleanup ->
                (exists h, e = RemoveHotkey h) \/ e = UnhookAllHotkeys.
Proof.
  intros keyboard asyncio_run log l1 r Hrun.
  exists (cleanup_events keyboard).
  split; [exact (main_run keyboard asyncio_run log l1 r Hrun)|].
  unfold cleanup_events. intros e.
  destruct keyboard as [kb|]; [|intros []].
  destruct (registered (Some kb)) as [h|].
  - destruct (remove_hotkey kb h); simpl; intuition eauto.
  - simpl; intuition eauto.
Qed.

Lemma X20_main_ends_as_the_loop_ended_witness :
  exists cleanup,
    main "win32" (Some stuck_keyboard) interrupted_run [] =
      (Returns tt,
       ([] ++ setup_events (Some stuck_keyboard)) ++
       [BootPrint LineKeyboardInterrupt] ++ cleanup) /\
    forall e, In e cleanup ->
              (exists h, e = RemoveHotkey h) \/ e = UnhookAllHotkeys.
Proof.
  apply (X20_main_ends_as_the_loop_ended
           (Some stuck_keyboard) interrupted_run []
           ([] ++ setup_events (Some stuck_keyboard))
           (Raises KeyboardInterrupt)).
  reflexivity.
Defined.

(** X21. On "win32", however [asyncio.run] ends, [main] then calls
    [keyboard.remove_hotkey] once, with the handle that [add_hotkey]
    returned, and not at all when there is no keyboard module or no handle;
    it calls [keyboard.unhook_all_hotkeys] whenever the keyboard module is
    present, unless [remove_hotkey] raised, which skips it. *)
Theorem X21_main_removes_what_it_registered :
  forall (keyboard : option Keyboard) (asyncio_run : B unit)
         (log l1 : list BootEvent) (r : completion unit),
    asyncio_run (log ++ setup_events keyboard) = (r, l1) ->
    exists cleanup,
      snd (main "win32" keyboard asyncio_run log) =
        l1 ++ interrupt_line r ++ cleanup /\
      removed_handles cleanup =
        match keyboard with
        | Some kb =>
            match add_hotkey kb with
            | Ok (Some h) => [h]
            | _ => []
            end
        | None => []
        end /\
      (In UnhookAllHotkeys cleanup <->
       exists kb, keyboard = Some kb /\
                  forall h e, add_hotkey kb = Ok (Some h) ->
                              remove_hotkey kb h <> Raise e).
Proof.
  intros keyboard asyncio_run log l1 r Hrun.
  exists (cleanup_events keyboard).
  split; [now rewrite (main_run keyboard asyncio_run log l1 r Hrun)|].
  unfold cleanup_events, registered.
  destruct keyboard as [kb|].
  2:{ split; [reflexivity|]. split; [intros [] |].
      intros (kb & H & _). discriminate. }
  destruct (add_hotkey kb) as [[h|]|e] eqn:Hadd.
  - destruct (remove_hotkey kb h) as [[]|e] eqn:Hrem; simpl.
    + split; [reflexivity|]. split; [intros _ | auto].
      exists kb. split; [reflexivity|].
      intros h' e' H. rewrite Hadd in H. injection H as <-.
      rewrite Hrem. discriminate.
    + split; [reflexivity|]. split.
      * intros [H|[]]. discriminate.
      * intros (kb' & Hkb & H). injection Hkb as <-.
        destruct (H h e Hadd Hrem).
  - simpl. split; [reflexivity|]. split; [intros _ | auto].
    exists kb. split; [reflexivity|]. intros h e H. congruence.
  - simpl. split; [reflexivity|]. split; [intros _ | auto].
    exists kb. split; [reflexivity|]. intros h e' H. congruence.
Qed.

Lemma X21_main_removes_what_it_registered_witness :
  exists cleanup,
    snd (main "win32" (Some stuck_keyboard) interrupted_run []) =
      ([] ++ setup_events (Some stuck_keyboard)) ++
      interrupt_line (Raises KeyboardInterrupt) ++ cleanup /\
    removed_handles cleanup = [7] /\
    (In UnhookAllHotkeys cleanup <->
     exists kb, Some stuck_keyboard = Some kb /\
                forall h e, add_hotkey kb = Ok (Some h) ->
                            remove_hotkey kb h <> Raise e).
Proof.
  apply (X21_main_removes_what_it_registered
           (Some stuck_keyboard) interrupted_run []
           ([] ++ setup_events (Some stuck_keyboard))
           (Raises KeyboardInterrupt)).
  reflexivity.
Defined.

(** X22. [setup_hotkey] never raises.  It returns a handle exactly when
    the keyboard module is present and [add_hotkey] returned that handle;
    it calls [add_hotkey] once when the module is present and never
    otherwise, and prints one line in every case. *)
Theorem X22_setup_hotkey_never_raises :
  forall (keyboard : option Keyboard) (log : list BootEvent),
    exists handle calls line,
      setup_hotkey keyboard log =
        (Returns handle, log ++ calls ++ [BootPrint line]) /\
      (forall h, handle = Some h <->
                 exists kb, keyboard = Some kb /\
                            add_hotkey kb = Ok (Some h)) /\
      calls = match keyboard with
              | Some _ => [AddHotkey STOP_HOTKEY]
              | None => []
              end.
Proof.
  intros keyboard log. rewrite setup_hotkey_run.
  unfold registered, setup_events.
  destruct keyboard as [kb|].
  - destruct (add_hotkey kb) as [handler|e] eqn:Hadd.
    + exists handler, [AddHotkey STOP_HOTKEY], LineHotkeyRegistered.
      split; [reflexivity|]. split; [|reflexivity].
      intros h. split.
      * intros ->. eauto.
      * intros (kb' & Hkb & H). injection Hkb as <-. congruence.
    + exists None, [AddHotkey STOP_HOTKEY], LineHotkeyFailed.
      split; [reflexivity|]. split; [|reflexivity].
      intros h. split; [discriminate|].
      intros (kb' & Hkb & H). injection Hkb as <-. congruence.
  - exists None, [], LineNoKeyboard.
    split; [reflexivity|]. split; [|reflexivity].
    intros h. split; [discriminate | intros (kb & H & _); discriminate].
Qed.

(** * The classifier where identities can be read, and where they cannot *)

(** X23. An exception other than [AttributeError] raised by the read of
    the AUMID of the first session of a snapshot is caught nowhere: it
    leaves [any_browser_video_playing], [pick_spotify_session] and the
    cycle, which has then printed, requested and called nothing, and it
    ends the loop. *)
Theorem X23_identity_read_error_ends_the_loop :
  forall (s : Session) (rest : list Session) (e : exn)
         (st : LoopState) (w : World),
    source_app_user_model_id s = Raise e ->
    is_AttributeError e = false ->
    any_browser_video_playing (s :: rest) = Raise e /\
    pick_spotify_session (s :: rest) = Raise e /\
    reconcile st (s :: rest) w = (Raise e, w) /\
    forall (mgr : Mgr) (stop_event : ThreadingEvent) (fuel : nat),
      get_sessions mgr (now w) = Ok (s :: rest) ->
      is_set stop_event (now w) = false ->
      monitor_while (S fuel) stop_event mgr st w = (Raise e, w).
Proof.
  intros s rest e st w Hsrc Hattr.
  pose proof (getattr_aumid_raises s e Hsrc Hattr) as Hget.
  assert (Hany : any_browser_video_playing (s :: rest) = Raise e).
  { simpl. now rewrite Hget. }
  assert (Hc : classify (s :: rest) = Raise e).
  { unfold classify. now rewrite Hany. }
  split; [exact Hany|]. split; [simpl; now rewrite Hget|].
  split; [exact (reconcile_raises st _ w e Hc)|].
  intros mgr stop_event fuel Hsessions Hunset.
  rewrite monitor_while_unfold, Hunset.
  rewrite (loop_body_raises mgr st w e); [reflexivity|].
  unfold snapshot. now rewrite Hsessions.
Qed.

Lemma X23_identity_read_error_ends_the_loop_witness :
  let mgr := {| get_sessions := fun _ => Ok [closed_session] |} in
  any_browser_video_playing [closed_session] = Raise (Exception 9) /\
  pick_spotify_session [closed_session] = Raise (Exception 9) /\
  reconcile initial_state [closed_session] start_world =
    (Raise (Exception 9), start_world) /\
  monitor_while 2 (set_at 1) mgr initial_state start_world =
    (Raise (Exception 9), start_world).
Proof.
  intros mgr.
  destruct (X23_identity_read_error_ends_the_loop
              closed_session [] (Exception 9) initial_state start_world
              eq_refl eq_refl) as (Hany & Hpick & Hcycle & Hloop).
  split; [exact Hany|]. split; [exact Hpick|]. split; [exact Hcycle|].
  apply (Hloop mgr (set_at 1) 1); reflexivity.
Defined.

(** X24. On a snapshot in which every identity can be read and is ASCII
    text, [any_browser_video_playing] gives an answer, and the answer is
    [True] exactly when the platform offers the status Playing for some
    session whose identity contains one of the browser keywords,
    case-insensitively; "Chrome", "CHROME.EXE" and "chrome" are such
    identities. *)
Theorem X24_video_active_iff_on_readable_identities :
  forall snapshot : list Session,
    Forall aumid_readable snapshot ->
    Forall (fun s => ascii_only (identity s)) snapshot ->
    (exists b, any_browser_video_playing snapshot = Ok b) /\
    (any_browser_video_playing snapshot = Ok true <->
     exists s, In s snapshot /\ video_source s /\
               status_reads s PlaybackStatus.PLAYING) /\
    is_browser_session (Some "Chrome"%string) = true /\
    is_browser_session (Some "CHROME.EXE"%string) = true /\
    is_browser_session (Some "chrome"%string) = true.
Proof.
  intros snapshot Hread _.
  split; [now apply any_browser_video_playing_total|].
  split; [|repeat split; reflexivity].
  rewrite (any_browser_video_playing_true_iff snapshot Hread).
  split; intros (s & Hin & Hb & Hst); exists s; repeat split; auto.
  - now apply (is_browser_session_iff (Some (identity s))).
  - now apply status_is_iff_status_reads.
  - now apply (is_browser_session_iff (Some (identity s))).
  - now apply status_is_iff_status_reads.
Qed.

Lemma X24_video_active_iff_on_readable_identities_witness :
  let snapshot := [unreadable "Spotify.exe";
                   responsive "CHROME.EXE" PlaybackStatus.PLAYING] in
  (exists b, any_browser_video_playing snapshot = Ok b) /\
  (any_browser_video_playing snapshot = Ok true <->
   exists s, In s snapshot /\ video_source s /\
             status_reads s PlaybackStatus.PLAYING) /\
  is_browser_session (Some "Chrome"%string) = true /\
  is_browser_session (Some "CHROME.EXE"%string) = true /\
  is_browser_session (Some "chrome"%string) = true.
Proof.
  apply (X24_video_active_iff_on_readable_identities
           [unreadable "Spotify.exe";
            responsive "CHROME.EXE" PlaybackStatus.PLAYING]).
  - repeat constructor; intros e H; discriminate H.
  - repeat constructor; simpl; lia.
Defined.

(** X25. On a snapshot in which every identity can be read and is ASCII
    text, [pick_spotify_session] returns [None] exactly when no identity
    contains the Spotify token case-insensitively, and otherwise the first
    session, in snapshot order, whose identity does; [get_spotify_playing]
    of the result is [None] exactly when there is no such session or the
    reads of its status fail, [True] exactly when the platform offers the
    status Playing for it, and [False] exactly when it offers another
    status. *)
Theorem X25_player_on_readable_identities :
  forall snapshot : list Session,
    Forall aumid_readable snapshot ->
    Forall (fun s => ascii_only (identity s)) snapshot ->
    exists player_session player_active,
      pick_spotify_session snapshot = Ok player_session /\
      get_spotify_playing player_session = Ok player_active /\
      (player_session = None <->
       Forall (fun s => ~ music_player s) snapshot) /\
      (forall s, player_session = Some s ->
         exists pre post,
           snapshot = pre ++ s :: post /\ music_player s /\
           Forall (fun x => ~ music_player x) pre) /\
      (player_active = None <->
       player_session = None \/
       exists s, player_session = Some s /\ status_read_fails s) /\
      (player_active = Some true <->
       exists s, player_session = Some s /\
                 status_reads s PlaybackStatus.PLAYING) /\
      (player_active = Some false <->
       exists s v, player_session = Some s /\
                   status_reads s v /\ v <> PlaybackStatus.PLAYING).
Proof.
  intros snapshot Hread _.
  destruct (pick_spotify_session_total snapshot Hread) as (ps & Hpick).
  destruct (get_spotify_playing_total ps) as (pa & Hpa).
  exists ps, pa. split; [exact Hpick|]. split; [exact Hpa|].
  assert (Hm : forall s, is_spotify_session (Some (identity s)) = true <->
                         music_player s).
  { intros s. apply (is_spotify_session_iff (Some (identity s))). }
  split.
  { split.
    - intros ->. apply pick_spotify_session_none_iff in Hpick.
      revert Hpick. apply Forall_impl. intros s [_ Hs] Hmp.
      apply Hm in Hmp. congruence.
    - intros Hall. destruct ps as [s|]; [|reflexivity]. exfalso.
      destruct (pick_spotify_session_first _ _ Hpick)
        as (pre & post & -> & _ & Hs & _).
      rewrite Forall_forall in Hall. apply (Hall s).
      + apply in_or_app. right. now left.
      + now apply Hm. }
  split.
  { intros s ->.
    destruct (pick_spotify_session_first _ _ Hpick)
      as (pre & post & E & _ & Hs & Hpre).
    exists pre, post. split; [exact E|]. split; [now apply Hm|].
    revert Hpre. apply Forall_impl. intros x [_ Hx] Hmp.
    apply Hm in Hmp. congruence. }
  destruct ps as [s|]; simpl in Hpa.
  - destruct (get_playback_info_total s) as (st & pt & Hinfo).
    rewrite Hinfo in Hpa. simpl in Hpa.
    assert (Hreads : forall v, status_reads s v <-> st = Some v).
    { intros v. rewrite <- status_is_iff_status_reads. unfold status_is.
      split.
      - intros (pt' & H). congruence.
      - intros ->. now exists pt. }
    assert (Hfails : status_read_fails s <-> st = None).
    { rewrite status_read_fails_iff. unfold status_unreadable. split.
      - intros (pt' & H). congruence.
      - intros ->. now exists pt. }
    destruct st as [z|]; unfold Err.pure in Hpa; injection Hpa as <-.
    + split; [|split].
      * split; [discriminate|].
        intros [H|(x & Hx & Hf)]; [discriminate|]. injection Hx as <-.
        apply Hfails in Hf. discriminate.
      * split.
        -- intros H. injection H as H. apply Z.eqb_eq in H. subst z.
           exists s. split; [reflexivity | now apply Hreads].
        -- intros (x & Hx & Hr). injection Hx as <-.
           apply Hreads in Hr. injection Hr as ->. reflexivity.
      * split.
        -- intros H. injection H as H. apply Z.eqb_neq in H.
           exists s, z. repeat split; auto. now apply Hreads.
        -- intros (x & v & Hx & Hr & Hv). injection Hx as <-.
           apply Hreads in Hr. injection Hr as ->.
           apply Z.eqb_neq in Hv. now rewrite Hv.
    + split; [|split].
      * split; [|reflexivity]. intros _. right. exists s.
        split; [reflexivity | now apply Hfails].
      * split; [discriminate|].
        intros (x & Hx & Hr). injection Hx as <-.
        apply Hreads in Hr. discriminate.
      * split; [discriminate|].
        intros (x & v & Hx & Hr & _). injection Hx as <-.
        apply Hreads in Hr. discriminate.
  - unfold Err.pure in Hpa. injection Hpa as <-.
    split; [|split].
    + split; auto.
    + split; [discriminate | intros (x & Hx & _); discriminate].
    + split; [discriminate | intros (x & v & Hx & _); discriminate].
Qed.

Lemma X25_player_on_readable_identities_witness :
  let snapshot := [responsive "Chrome" PlaybackStatus.PLAYING;
                   responsive "Spotify.exe" PlaybackStatus.PAUSED] in
  exists player_session player_active,
    pick_spotify_session snapshot = Ok player_session /\
    get_spotify_playing player_session = Ok player_active /\
    (player_session = None <->
     Forall (fun s => ~ music_player s) snapshot) /\
    (forall s, player_session = Some s ->
       exists pre post,
         snapshot = pre ++ s :: post /\ music_player s /\
         Forall (fun x => ~ music_player x) pre) /\
    (player_active = None <->
     player_session = None \/
     exists s, player_session = Some s /\ status_read_fails s) /\
    (player_active = Some true <->
     exists s, player_session = Some s /\
               status_reads s PlaybackStatus.PLAYING) /\
    (player_active = Some false <->
     exists s v, player_session = Some s /\
                 status_reads s v /\ v <> PlaybackStatus.PLAYING).
Proof.
  apply (X25_player_on_readable_identities
           [responsive "Chrome" PlaybackStatus.PLAYING;
            responsive "Spotify.exe" PlaybackStatus.PAUSED]).
  - repeat constructor; intros e H; discriminate H.
  - repeat constructor; simpl; lia.
Defined.

(** X26. On a snapshot in which every identity can be read, a session
    whose status reads fail is taken as having no status and nothing more:
    the classification completes, [video_active] is what the remaining
    sessions alone give, and the player result is either that of the
    remaining sessions or the failing session itself with [player_active]
    Unknown. *)
Theorem X26_unreadable_status_is_contained :
  forall (pre post : list Session) (s : Session),
    Forall aumid_readable (pre ++ s :: post) ->
    status_read_fails s ->
    exists video_active player_session player_active,
      classify (pre ++ s :: post) =
        Ok (video_active, player_session, player_active) /\
      any_browser_video_playing (pre ++ post) = Ok video_active /\
      (classify (pre ++ post) =
         Ok (video_active, player_session, player_active) \/
       (player_session = Some s /\ player_active = None)).
Proof.
  intros pre post s Hread Hfail.
  apply status_read_fails_iff in Hfail. destruct Hfail as (pt & Hinfo).
  apply Forall_app in Hread. destruct Hread as (Hpre & Hrest).
  inversion Hrest as [|? ? Hs Hpost]; subst.
  assert (Hboth : Forall aumid_readable (pre ++ post)).
  { apply Forall_app. now split. }
  destruct (getattr_aumid_readable s Hs) as (a & Ha & _).
  assert (Hany : any_browser_video_playing (pre ++ s :: post) =
                 any_browser_video_playing (pre ++ post)).
  { rewrite !any_browser_video_playing_app. simpl. rewrite Ha. simpl.
    destruct (is_browser_session a); simpl; [|reflexivity].
    rewrite Hinfo. reflexivity. }
  destruct (any_browser_video_playing_total (pre ++ post) Hboth) as (va & Hva).
  destruct (pick_spotify_session_total pre Hpre) as (pp & Hpp).
  destruct (pick_spotify_session_total post Hpost) as (pq & Hpq).
  assert (Hunknown : get_spotify_playing (Some s) = Ok None).
  { simpl. now rewrite Hinfo. }
  unfold classify. rewrite Hany, Hva. cbn [Err.seq].
  rewrite !pick_spotify_session_app, Hpp.
  cbn [Err.seq Err.pure pick_spotify_session].
  destruct pp as [x|]; cbn [Err.seq Err.pure].
  - destruct (get_spotify_playing_total (Some x)) as (pa & Hpa).
    rewrite Hpa. cbn [Err.seq Err.pure]. exists va, (Some x), pa. auto.
  - rewrite Ha, Hpq. cbn [Err.seq Err.pure].
    destruct (is_spotify_session a); cbn [Err.seq Err.pure].
    + rewrite Hunknown. cbn [Err.seq Err.pure].
      exists va, (Some s), None. auto.
    + destruct (get_spotify_playing_total pq) as (pa & Hpa).
      rewrite Hpa. cbn [Err.seq Err.pure]. exists va, pq, pa. auto.
Qed.

Lemma X26_unreadable_status_is_contained_witness :
  let chrome := responsive "Chrome" PlaybackStatus.PLAYING in
  let spotify := unreadable "Spotify.exe" in
  exists video_active player_session player_active,
    classify ([chrome] ++ spotify :: []) =
      Ok (video_active, player_session, player_active) /\
    any_browser_video_playing ([chrome] ++ []) = Ok video_active /\
    (classify ([chrome] ++ []) =
       Ok (video_active, player_session, player_active) \/
     (player_session = Some spotify /\ player_active = None)).
Proof.
  apply (X26_unreadable_status_is_contained
           [responsive "Chrome" PlaybackStatus.PLAYING] []
           (unreadable "Spotify.exe")).
  - repeat constructor; intros e H; discriminate H.
  - apply (call_raises_attr_raises _ (Exception 0) (Exception 1)); reflexivity.
Defined.
